(** * Spectra processing: aggregation, correction, continuum normalisation
      and line detection of [spectra_processing.py], embedded in Rocq.

    Numbers.  The Python code computes on IEEE doubles held in pandas
    frames and numpy arrays.  The embedding idealises them as exact
    numbers: rationals [Q] wherever the code only adds, subtracts, divides
    by a count and compares (so that every definition evaluates), and
    reals [R] in [FitContinuum], which takes a square root.  The rounding
    of this arithmetic is outside the model.  The fitter of
    [FitContinuum] is a parameter, and nothing is assumed of the
    continuum it returns: what a fit returns after rounding is one of its
    values.  The NaN that the division by a zero norm in [FitContinuum]
    produces is modelled explicitly.

    Row labels.  A frame is modelled without its row index.  All the
    code does with row labels is the arithmetic between pandas Series in
    the last assignment of [ProcessData], which pairs rows by label and
    fills a row one operand lacks with NaN.  The frames of the model are
    frames under one common row index, as [LoadData], the aggregators
    and [copy] produce them (the default [RangeIndex]); for these,
    pairing by label is pairing by position.  Frames whose row labels
    differ are outside the model, and no statement below gives the cells
    [ProcessData] computes for them.  [ProcessDataEach] subtracts the
    [.values] of a column, a numpy array, by position whatever the
    labels.

    Errors.  A Python call either returns a value or raises; this is the
    type [result]. *)

From Stdlib Require Import List String ZArith QArith Qabs Lia Sorted Bool.
From Stdlib Require Import SetoidList Permutation Reals Lra.
Import ListNotations.

Local Open Scope string_scope.
Local Open Scope Q_scope.

(** ** Python exceptions and results *)

Inductive exn : Type :=
| ValueError (msg : string)
| KeyError (key : string)
| IndexError
| NameError (name : string).

Inductive result (A : Type) : Type :=
| Ok (a : A)
| Raise (e : exn).

Arguments Ok {A} a.
Arguments Raise {A} e.

Definition bind {A B : Type} (r : result A) (k : A -> result B) : result B :=
  match r with
  | Ok a => k a
  | Raise e => Raise e
  end.

Notation "x <- r ;; k" := (bind r (fun x => k))
  (at level 61, r at next level, right associativity).

Definition is_error {A : Type} (r : result A) : Prop :=
  match r with
  | Ok _ => False
  | Raise _ => True
  end.

(** ** Spectrum tables

    [LoadData] names the two columns of every frame it builds
    ['wavelength'] and ['intensity'].  A spectrum table is such a frame,
    row by row. *)

Definition SpectrumTable : Type := list (Q * Q).

Definition wavelengths (t : SpectrumTable) : list Q := map fst t.
Definition intensities (t : SpectrumTable) : list Q := map snd t.

(** ** Aggregator: [AverageSpectra] and [AddSpectra] *)

Module Aggregator.

(** [pd.concat(objs)]: raises on an empty list, otherwise stacks the rows
    of the frames in order. *)
Definition concat (objs : list SpectrumTable) : result SpectrumTable :=
  match objs with
  | [] => Raise (ValueError "No objects to concatenate")
  | _ :: _ => Ok (List.concat objs)
  end.

(** [groupby('wavelength', as_index=False)] uses the default [sort=True]:
    one group per distinct key, the groups in ascending key order. *)
Fixpoint insert_key (k : Q) (ks : list Q) : list Q :=
  match ks with
  | [] => [k]
  | k' :: ks' =>
      match k ?= k' with
      | Lt => k :: ks
      | Eq => ks
      | Gt => k' :: insert_key k ks'
      end
  end.

Definition group_keys (rows : SpectrumTable) : list Q :=
  fold_left (fun ks r => insert_key (fst r) ks) rows [].

(** The ['intensity'] values of the rows whose key equals [k], in row
    order.  Key equality is equality of numbers. *)
Definition group_values (k : Q) (rows : SpectrumTable) : list Q :=
  map snd (filter (fun r => Qeq_bool (fst r) k) rows).

Definition groupby_agg (agg : list Q -> Q) (rows : SpectrumTable)
  : SpectrumTable :=
  map (fun k => (k, agg (group_values k rows))) (group_keys rows).

Definition Qsum (l : list Q) : Q := fold_left Qplus l 0.

Definition Qmean (l : list Q) : Q :=
  Qsum l / inject_Z (Z.of_nat (length l)).

Definition AverageSpectra (spectra : list SpectrumTable)
  : result SpectrumTable :=
  combined_spectra <- concat spectra ;;
  Ok (groupby_agg Qmean combined_spectra).

Definition AddSpectra (spectra : list SpectrumTable)
  : result SpectrumTable :=
  combined_spectra <- concat spectra ;;
  Ok (groupby_agg Qsum combined_spectra).

(** What the statements about the aggregator speak of. *)

(** [w] is a wavelength of table [t]. *)
Definition has_wavelength (w : Q) (t : SpectrumTable) : Prop :=
  InA Qeq w (wavelengths t).

Definition contains (w : Q) (t : SpectrumTable) : bool :=
  existsb (fun r => Qeq_bool (fst r) w) t.

(** The intensities table [t] records at wavelength [w]. *)
Definition intensities_at (w : Q) (t : SpectrumTable) : list Q :=
  group_values w t.

End Aggregator.

(** ** Data frames as the corrector and the window selection see them

    A frame is its columns from left to right, each a label and the cell
    values.  Column labels are taken to be distinct.  Rows carry one
    common row index, the default [RangeIndex] of every frame this module
    builds, and the index is not represented. *)

Definition DataFrame : Type := list (string * list Q).

Definition frame_of_table (t : SpectrumTable) : DataFrame :=
  [("wavelength", wavelengths t); ("intensity", intensities t)].

Module Frame.

(** [df.shape[0]] and [df.shape[1]]. *)
Definition shape0 (df : DataFrame) : nat :=
  match df with
  | [] => 0%nat
  | (_, c) :: _ => length c
  end.

Definition shape1 (df : DataFrame) : nat := length df.

Definition columns (df : DataFrame) : list string := map fst df.
Definition values (df : DataFrame) : list (list Q) := map snd df.

(** [df[name]]: the column labelled [name]. *)
Fixpoint getitem (name : string) (df : DataFrame) : result (list Q) :=
  match df with
  | [] => Raise (KeyError name)
  | (n, c) :: df' => if String.eqb n name then Ok c else getitem name df'
  end.

(** [df[name] = c]: overwrite the column labelled [name], or append it. *)
Fixpoint setitem (name : string) (c : list Q) (df : DataFrame) : DataFrame :=
  match df with
  | [] => [(name, c)]
  | (n, c') :: df' =>
      if String.eqb n name then (n, c) :: df'
      else (n, c') :: setitem name c df'
  end.

(** [df.columns = names]: relabel from left to right; pandas refuses a
    list of the wrong length. *)
Definition set_columns (names : list string) (df : DataFrame)
  : result DataFrame :=
  if Nat.eqb (length names) (length df)
  then Ok (combine names (values df))
  else Raise (ValueError "Length mismatch").

(** [a - b] for two columns of equal length paired by position: a
    column and the [.values] of another, or two pandas Series under one
    common row index. *)
Definition series_sub (a b : list Q) : list Q :=
  map (fun p => fst p - snd p) (combine a b).

(** [s -= v] for a column [s] and a numpy array [v] (the [.values] of a
    column): numpy broadcasts a one-element [v]; any other difference in
    length is a [ValueError]. *)
Definition series_isub (s v : list Q) : result (list Q) :=
  if Nat.eqb (length s) (length v) then Ok (series_sub s v)
  else match v with
       | [x] => Ok (map (fun a => a - x) s)
       | _ => Raise (ValueError "operands could not be broadcast together")
       end.

End Frame.

(** ** The object store

    [ProcessData] assigns to an attribute of the frames it is handed, so
    frames are objects: the store lists them, a reference is a position in
    it, and what [print] wrote is kept alongside.  A computation takes the
    state and returns the state it leaves with a value or an exception;
    what was written before an exception stays written. *)

Definition ref : Type := nat.

Record state : Type := mkState {
  objs : list DataFrame;
  stdout : list string
}.

Definition M (A : Type) : Type := state -> state * result A.

Definition ret {A : Type} (a : A) : M A := fun s => (s, Ok a).

Definition mbind {A B : Type} (m : M A) (k : A -> M B) : M B :=
  fun s =>
    match m s with
    | (s', Ok a) => k a s'
    | (s', Raise e) => (s', Raise e)
    end.

Notation "'let*' x ':=' m 'in' k" := (mbind m (fun x => k))
  (at level 10, x name, m at level 100, k at level 200).

Definition lift {A : Type} (r : result A) : M A := fun s => (s, r).

(** Reading through a reference.  A reference that names no object of the
    store stands for an unbound name. *)
Definition deref (r : ref) : M DataFrame :=
  fun s =>
    match nth_error (objs s) r with
    | Some df => (s, Ok df)
    | None => (s, Raise (NameError "unbound"))
    end.

Fixpoint update {A : Type} (l : list A) (i : nat) (x : A) : list A :=
  match l, i with
  | [], _ => []
  | _ :: l', O => x :: l'
  | y :: l', S i' => y :: update l' i' x
  end.

Definition assign (r : ref) (df : DataFrame) : M unit :=
  fun s => (mkState (update (objs s) r df) (stdout s), Ok tt).

(** A new object: it takes the next free position. *)
Definition alloc (df : DataFrame) : M ref :=
  fun s => (mkState (objs s ++ [df]) (stdout s), Ok (length (objs s))).

Definition print (line : string) : M unit :=
  fun s => (mkState (objs s) (stdout s ++ [line]), Ok tt).

(** [df.copy()]: a new object with the same labels and cells. *)
Definition copy (r : ref) : M ref :=
  let* df := deref r in alloc df.

(** ** Corrector: [ProcessDataEach] and [ProcessData] *)

Module Corrector.

Definition required_columns : list string := ["wavelength"; "intensity"].

(** [processed_df['intensity'] -= ref_frame['intensity'].values] *)
Definition isub_intensity (processed_df ref_frame : ref) : M unit :=
  let* p := deref processed_df in
  let* s := lift (Frame.getitem "intensity" p) in
  let* b := deref ref_frame in
  let* v := lift (Frame.getitem "intensity" b) in
  let* s' := lift (Frame.series_isub s v) in
  let* p' := deref processed_df in
  assign processed_df (Frame.setitem "intensity" s' p').

(** The body of the loop of [ProcessDataEach] for one raw frame. *)
Definition process_one (background dark : ref)
    (subtract_background subtract_dark : bool) (data : ref) : M ref :=
  let* processed_df := copy data in
  let* _ := (if subtract_background
             then isub_intensity processed_df background else ret tt) in
  let* _ := (if subtract_dark
             then isub_intensity processed_df dark else ret tt) in
  ret processed_df.

Fixpoint each_loop (background dark : ref)
    (subtract_background subtract_dark : bool)
    (rawdata : list ref) (processed_data : list ref) : M (list ref) :=
  match rawdata with
  | [] => ret processed_data
  | data :: rest =>
      let* processed_df :=
        process_one background dark subtract_background subtract_dark data in
      each_loop background dark subtract_background subtract_dark rest
                (processed_data ++ [processed_df])
  end.

(** The validation at the head of the Python function is commented out;
    nothing is checked before the loop. *)
Definition ProcessDataEach (rawdata : list ref) (background dark : ref)
    (subtract_background subtract_dark : bool) : M (list ref) :=
  each_loop background dark subtract_background subtract_dark rawdata [].

(** The first loop of [ProcessData]: [false] when it left the function
    with [return None], [true] when it ran to its end. *)
Fixpoint check_columns (dfs : list ref) : M bool :=
  match dfs with
  | [] => ret true
  | r :: rest =>
      let* df := deref r in
      if negb (Nat.eqb (Frame.shape1 df) 2) then
        let* _ := print "ERROR EXCEPTION: Data should have exactly two columns" in
        ret false
      else
        let* df' := lift (Frame.set_columns required_columns df) in
        let* _ := assign r df' in
        check_columns rest
  end.

(** The last assignment subtracts three pandas Series and stores the
    result in the copy of the raw frame; under the common row index of
    the frames of the model the rows are paired by position. *)
Definition ProcessData (rawdata background dark : ref) : M (option ref) :=
  let* ok := check_columns [rawdata; background; dark] in
  if negb ok then ret None else
  let* r := deref rawdata in
  let* b := deref background in
  let* d := deref dark in
  if negb (Nat.eqb (Frame.shape0 r) (Frame.shape0 b)
           && Nat.eqb (Frame.shape0 b) (Frame.shape0 d)) then
    let* _ := print "ERROR EXCEPTION: Data should have the same length" in
    ret None
  else
    let* processed_data := copy rawdata in
    let* ri := lift (Frame.getitem "intensity" r) in
    let* bi := lift (Frame.getitem "intensity" b) in
    let* di := lift (Frame.getitem "intensity" d) in
    let* p := deref processed_data in
    let* _ := assign processed_data
                (Frame.setitem "intensity"
                   (Frame.series_sub (Frame.series_sub ri bi) di) p) in
    ret (Some processed_data).

End Corrector.

(** ** Module-level names

    Two functions read names that are neither parameters nor locals, so
    Python resolves them in the module's globals at call time.  [None] is
    an unbound name. *)

Record globals : Type := mkGlobals {
  sum_spectra : option DataFrame;
  wavelength_truncated : option (list Q)
}.

Definition global {A : Type} (name : string) (v : option A) : result A :=
  match v with
  | Some a => Ok a
  | None => Raise (NameError name)
  end.

(** ** numpy arrays *)

Module Np.

(** [a[mask]] for a boolean array [mask]. *)
Fixpoint select (a : list Q) (mask : list bool) : list Q :=
  match a, mask with
  | x :: a', b :: mask' => if b then x :: select a' mask' else select a' mask'
  | _, _ => []
  end.

Definition mask_index (a : list Q) (mask : list bool) : result (list Q) :=
  if Nat.eqb (length a) (length mask) then Ok (select a mask)
  else Raise IndexError.

Definition Qlt_bool (a b : Q) : bool := negb (Qle_bool b a).

(** [np.argmin]: the position of the first occurrence of the minimum. *)
Fixpoint argmin_from (best : Q) (best_i i : nat) (l : list Q) : nat :=
  match l with
  | [] => best_i
  | x :: l' =>
      if Qlt_bool x best then argmin_from x i (S i) l'
      else argmin_from best best_i (S i) l'
  end.

Definition argmin (l : list Q) : result nat :=
  match l with
  | [] => Raise (ValueError "attempt to get argmin of an empty sequence")
  | x :: l' => Ok (argmin_from x 0 1 l')
  end.

(** [a[i]] for an integer [i]: a negative [i] counts from the end, and
    anything outside [-len(a) <= i < len(a)] is an [IndexError]. *)
Definition index (a : list Q) (i : Z) : result Q :=
  let n := Z.of_nat (length a) in
  let j := (if i <? 0 then i + n else i)%Z in
  if ((0 <=? j) && (j <? n))%Z then
    match nth_error a (Z.to_nat j) with
    | Some x => Ok x
    | None => Raise IndexError
    end
  else Raise IndexError.

End Np.

(** ** Window selection: [DefSpectrumForLines]

    The body never mentions its first parameter [spectr]; it reads the
    module-level name [sum_spectra]. *)

Definition DefSpectrumForLines (g : globals) (spectr : DataFrame)
    (minwavelength maxwavelength : Q) : result (list Q * list Q) :=
  frame <- global "sum_spectra" (sum_spectra g) ;;
  wavelength <- Frame.getitem "wavelength" frame ;;
  frame' <- global "sum_spectra" (sum_spectra g) ;;
  intensity <- Frame.getitem "intensity" frame' ;;
  let mask := map (fun w => Qle_bool minwavelength w && Qle_bool w maxwavelength)
                  wavelength in
  wavelength_truncated <- Np.mask_index wavelength mask ;;
  intensity_truncated <- Np.mask_index intensity mask ;;
  Ok (wavelength_truncated, intensity_truncated).

(** ** Line detection: the two loops of [DetectAndPlotLines] *)

Module Detector.

(** A Python [dict]: its items in insertion order.  Assigning to a key
    that is present replaces the value where it stands. *)
Fixpoint dict_set {K V : Type} (eqb : K -> K -> bool) (k : K) (v : V)
    (d : list (K * V)) : list (K * V) :=
  match d with
  | [] => [(k, v)]
  | (k', v') :: d' =>
      if eqb k' k then (k', v) :: d' else (k', v') :: dict_set eqb k v d'
  end.

Fixpoint dict_get {V : Type} (k : string) (d : list (string * V))
  : result V :=
  match d with
  | [] => Raise (KeyError k)
  | (k', v) :: d' => if String.eqb k' k then Ok v else dict_get k d'
  end.

Definition keys {K V : Type} (d : list (K * V)) : list K := map fst d.
Definition dict_values {K V : Type} (d : list (K * V)) : list V := map snd d.

(** [np.argmin(np.abs(wavelength_truncated - line_wavelength))], with
    [wavelength_truncated] the module-level name. *)
Definition snap (g : globals) (line_wavelength : Q) : result nat :=
  wt <- global "wavelength_truncated" (wavelength_truncated g) ;;
  Np.argmin (map (fun w => Qabs (w - line_wavelength)) wt).

(** [flux < spectra[index - k] and flux < spectra[index + k]]: the right
    operand is evaluated only when the left one holds. *)
Definition below_both (spectra : list Q) (index : nat) (flux : Q) (k : Z)
  : result bool :=
  l <- Np.index spectra (Z.of_nat index - k) ;;
  if Np.Qlt_bool flux l then
    r <- Np.index spectra (Z.of_nat index + k) ;;
    Ok (Np.Qlt_bool flux r)
  else Ok false.

(** The test both loops make on one reference wavelength: the depth
    cutoff first, the two neighbours only when it is met. *)
Definition line_test (g : globals) (spectra : list Q) (cutoff : Q) (k : Z)
    (line_wavelength : Q) : result bool :=
  index <- snap g line_wavelength ;;
  flux <- Np.index spectra (Z.of_nat index) ;;
  let depth := - flux in
  if Qle_bool cutoff depth then below_both spectra index flux k
  else Ok false.

Fixpoint catalog_loop (g : globals) (spectra : list Q) (threshold : Q)
    (items : list (string * Q)) (detected_lines : list (string * Q))
  : result (list (string * Q)) :=
  match items with
  | [] => Ok detected_lines
  | (line_name, line_wavelength) :: rest =>
      hit <- line_test g spectra threshold 10 line_wavelength ;;
      catalog_loop g spectra threshold rest
        (if hit then dict_set String.eqb line_name line_wavelength detected_lines
         else detected_lines)
  end.

Definition telluric_cutoff : Q := 2 # 100.

Fixpoint telluric_loop (g : globals) (spectra : list Q)
    (lines : list Q) (telluric_lines_d : list (Q * Q))
  : result (list (Q * Q)) :=
  match lines with
  | [] => Ok telluric_lines_d
  | line_wavelength :: rest =>
      hit <- line_test g spectra telluric_cutoff 1 line_wavelength ;;
      telluric_loop g spectra rest
        (if hit then dict_set Qeq_bool line_wavelength line_wavelength
                              telluric_lines_d
         else telluric_lines_d)
  end.

(** The two loops.  The parameter [wavelength] is never read. *)
Definition detect (g : globals) (spectra wavelength : list Q)
    (spectral_lines : list (string * Q))
    (telluric_lines : list (string * list Q)) (threshold : Q)
  : result (list (string * Q) * list (Q * Q)) :=
  detected_lines <- catalog_loop g spectra threshold spectral_lines [] ;;
  tl <- dict_get "TL" telluric_lines ;;
  telluric_lines_d <- telluric_loop g spectra tl [] ;;
  Ok (detected_lines, telluric_lines_d).

(** What [DetectAndPlotLines] hands to [lineid_plot.plot_line_ids]: the
    wavelength axis, the flux, the line positions and their labels.  The
    drawing itself belongs to the rendering library. *)
Record plot_request : Type := mkPlot {
  plot_wave : list Q;
  plot_flux : list Q;
  plot_line_wave : list Q;
  plot_line_label : list string
}.

Definition DetectAndPlotLines (g : globals) (spectra wavelength : list Q)
    (spectral_lines : list (string * Q))
    (telluric_lines : list (string * list Q)) (threshold : Q)
  : result plot_request :=
  d <- detect g spectra wavelength spectral_lines telluric_lines threshold ;;
  let (detected_lines, telluric_lines_d) := d in
  wt <- global "wavelength_truncated" (wavelength_truncated g) ;;
  Ok (mkPlot wt spectra
        (dict_values detected_lines ++ dict_values telluric_lines_d)
        (keys detected_lines
           ++ repeat "TL" (length telluric_lines_d))).

End Detector.

(** ** Continuum normalisation: [FitContinuum]

    The arrays are real here.  A cell of the array numpy returns from a
    division is a number, an infinity or NaN. *)

Module Continuum.

Local Open Scope R_scope.

Inductive npfloat : Type :=
| Finite (x : R)
| PosInf
| NegInf
| NaN.

(** [x / n] on doubles: dividing by zero raises nothing (numpy only
    warns) and yields NaN for [0 / 0] and a signed infinity otherwise. *)
Definition np_divide (x n : R) : npfloat :=
  if Req_EM_T n 0 then
    if Req_EM_T x 0 then NaN
    else if Rlt_dec 0 x then PosInf else NegInf
  else Finite (x / n).

(** [a - b] on one-dimensional arrays, with numpy's broadcasting of a
    one-element operand. *)
Definition np_sub (a b : list R) : result (list R) :=
  if Nat.eqb (length a) (length b)
  then Ok (map (fun p => fst p - snd p) (combine a b))
  else match a, b with
       | _, [y] => Ok (map (fun x => x - y) a)
       | [x], _ => Ok (map (fun y => x - y) b)
       | _, _ => Raise (ValueError "operands could not be broadcast together")
       end.

Definition sum_sq (v : list R) : R :=
  fold_right (fun x acc => x * x + acc) 0 v.

(** [np.linalg.norm(v)] of a one-dimensional array. *)
Definition norm (v : list R) : R := sqrt (sum_sq v).

Section Fit.

(** [LinearLSQFitter()(models.Chebyshev1D(degree), x, y)] is astropy's:
    it raises or returns the fitted model, a function of the
    wavelength. *)
Variable fitter : nat -> list R -> list R -> result (R -> R).

(** The [image] branch only draws and is left out. *)
Definition FitContinuum (degree : nat) (wavelength intensity : list R)
  : result (list npfloat) :=
  g1_fit <- fitter degree wavelength intensity ;;
  residual <- np_sub intensity (map g1_fit wavelength) ;;
  residual' <- np_sub intensity (map g1_fit wavelength) ;;
  Ok (map (fun d => np_divide d (norm residual')) residual).

End Fit.

End Continuum.

(** ** Notions used in the statements *)

(** [n] objects of the store of [s] are still what they were in [s'],
    and no object has gone. *)
Definition keeps (n : nat) (s s' : state) : Prop :=
  firstn n (objs s') = firstn n (objs s)
  /\ (length (objs s) <= length (objs s'))%nat.

(** What [df.columns = ['wavelength', 'intensity']] makes of [df]. *)
Definition relabel (df : DataFrame) : DataFrame :=
  combine Corrector.required_columns (Frame.values df).

(** [b] holds the cells of [a], under the labels of [a] or under
    ['wavelength'], ['intensity']. *)
Definition relabelled (a b : DataFrame) : Prop :=
  Frame.values b = Frame.values a
  /\ (Frame.columns b = Frame.columns a
      \/ Frame.columns b = Corrector.required_columns).

Definition store_relabelled (h h' : list DataFrame) : Prop :=
  length h' = length h
  /\ forall i a, nth_error h i = Some a ->
       exists b, nth_error h' i = Some b /\ relabelled a b.

Definition two_columns (h : list DataFrame) (r : ref) : bool :=
  match nth_error h r with
  | Some df => Nat.eqb (Frame.shape1 df) 2
  | None => false
  end.

(** The precondition of the corrector: two columns each and one row
    count. *)
Definition shape_ok (raw background dark : DataFrame) : bool :=
  Nat.eqb (Frame.shape1 raw) 2 && Nat.eqb (Frame.shape1 background) 2
  && Nat.eqb (Frame.shape1 dark) 2
  && Nat.eqb (Frame.shape0 raw) (Frame.shape0 background)
  && Nat.eqb (Frame.shape0 background) (Frame.shape0 dark).

(** The table [ProcessData] builds from three tables of the right
    shape under one common row index: the first column of the raw table,
    and its second column less those of the background and of the dark
    table, cell by cell. *)
Definition corrected (raw background dark : DataFrame) : DataFrame :=
  [("wavelength", nth 0 (Frame.values raw) []);
   ("intensity",
     Frame.series_sub
       (Frame.series_sub (nth 1 (Frame.values raw) [])
                         (nth 1 (Frame.values background) []))
       (nth 1 (Frame.values dark) []))].

(** The rest of [ProcessData] once its first loop has answered [ok]. *)
Definition ProcessData_tail (r b d : ref) (ok : bool) : M (option ref) :=
  if negb ok then ret None else
  let* fr := deref r in
  let* fb := deref b in
  let* fd := deref d in
  if negb (Nat.eqb (Frame.shape0 fr) (Frame.shape0 fb)
           && Nat.eqb (Frame.shape0 fb) (Frame.shape0 fd)) then
    let* _ := print "ERROR EXCEPTION: Data should have the same length" in
    ret None
  else
    let* processed_data := copy r in
    let* ri := lift (Frame.getitem "intensity" fr) in
    let* bi := lift (Frame.getitem "intensity" fb) in
    let* di := lift (Frame.getitem "intensity" fd) in
    let* p := deref processed_data in
    let* _ := assign processed_data
                (Frame.setitem "intensity"
                   (Frame.series_sub (Frame.series_sub ri bi) di) p) in
    ret (Some processed_data).

(** Sample tables: a raw exposure of five rows, a background of four, a
    dark of five, and the same three as read from a file without a
    header line, their columns labelled 0 and 1. *)
Definition raw5 : DataFrame :=
  frame_of_table [(1, 10); (2, 20); (3, 30); (4, 40); (5, 50)].
Definition background4 : DataFrame :=
  frame_of_table [(1, 1); (2, 1); (3, 1); (4, 1)].
Definition background5 : DataFrame :=
  frame_of_table [(1, 1); (2, 1); (3, 1); (4, 1); (5, 1)].
Definition dark5 : DataFrame :=
  frame_of_table [(1, 2); (2, 2); (3, 2); (4, 2); (5, 2)].

Definition headerless (df : DataFrame) : DataFrame :=
  combine ["0"; "1"] (Frame.values df).

(** Sample windows: [n] wavelengths 0, 1, ..., n-1 and a flat residual
    with one dip of depth 1 at position [i]. *)
Definition grid (n : nat) : list Q :=
  map (fun j => inject_Z (Z.of_nat j)) (seq 0 n).

Definition dip (n i : nat) : list Q :=
  map (fun j => if Nat.eqb j i then - (1) else 0) (seq 0 n).

(** Two module states: the co-added spectrum and the window as one
    session left them, and as another did. *)
Definition session_a : globals :=
  mkGlobals (Some (frame_of_table [(400, 1); (450, 2); (500, 3)]))
            (Some (grid 30)).

Definition session_b : globals :=
  mkGlobals (Some (frame_of_table [(400, 9); (450, 8); (600, 7)]))
            (Some (map (fun w => w + 2) (grid 30))).

(** Two tables that agree row by row, as numbers. *)
Definition same_table (a b : SpectrumTable) : Prop :=
  Forall2 (fun r r' => fst r == fst r' /\ snd r == snd r') a b.

(** The rows of a table whose wavelength lies between two bounds, both
    included, in the order of the table. *)
Definition window (lo hi : Q) (rows : SpectrumTable) : SpectrumTable :=
  filter (fun p => Qle_bool lo (fst p) && Qle_bool (fst p) hi) rows.

(** Whether the test of the detection loops answers [True] for a
    reference wavelength; an exception is not an answer. *)
Definition passes (g : globals) (spectra : list Q) (cutoff : Q) (k : Z)
    (line_wavelength : Q) : bool :=
  match Detector.line_test g spectra cutoff k line_wavelength with
  | Ok true => true
  | _ => false
  end.

(** The aggregation in the words of the specification, written without
    the functions of the code: the intensities a table records at a
    wavelength, the tables of a list that record one there, the sum of a
    list of numbers and its arithmetic mean. *)
Fixpoint recorded_at (w : Q) (t : SpectrumTable) : list Q :=
  match t with
  | [] => []
  | (w', v) :: t' =>
      if Qeq_bool w' w then v :: recorded_at w t' else recorded_at w t'
  end.

Fixpoint tables_with (w : Q) (spectra : list SpectrumTable)
  : list SpectrumTable :=
  match spectra with
  | [] => []
  | t :: rest =>
      match recorded_at w t with
      | [] => tables_with w rest
      | _ :: _ => t :: tables_with w rest
      end
  end.

Fixpoint total (l : list Q) : Q :=
  match l with
  | [] => 0
  | x :: l' => x + total l'
  end.

Definition arithmetic_mean (l : list Q) : Q :=
  total l / inject_Z (Z.of_nat (length l)).

(** The normalisation in the words of the specification, written
    without the functions of the code: the residual of a continuum [g] at
    sample [i] and over the window, and the L2 norm of an array, the
    square root of the sum of its squared cells. *)
Definition residual_at (g : R -> R) (wavelength intensity : list R)
    (i : nat) : R :=
  (nth i intensity 0 - g (nth i wavelength 0))%R.

Definition residual_over (g : R -> R) (wavelength intensity : list R)
  : list R :=
  map (residual_at g wavelength intensity) (seq 0 (length intensity)).

Fixpoint sum_of_squares (v : list R) : R :=
  match v with
  | [] => 0%R
  | x :: v' => (Rsqr x + sum_of_squares v')%R
  end.

Definition l2_norm (v : list R) : R := sqrt (sum_of_squares v).

(** * Properties *)

(** ** Aggregator *)

Section AggregatorFacts.

Import Aggregator.

Lemma insert_key_InA (x k : Q) (ks : list Q) :
  InA Qeq x (insert_key k ks) <-> x == k \/ InA Qeq x ks.
Proof.
  induction ks as [|k' ks IH]; simpl.
  - rewrite InA_cons, InA_nil. tauto.
  - destruct (k ?= k') eqn:E.
    + apply Qeq_alt in E. rewrite InA_cons. split; [tauto|].
      intros [H|H]; [left; now rewrite H|exact H].
    + rewrite !InA_cons. tauto.
    + rewrite !InA_cons, IH. tauto.
Qed.

Lemma insert_key_lower (m k : Q) (ks : list Q) :
  m < k -> Forall (Qlt m) ks -> Forall (Qlt m) (insert_key k ks).
Proof.
  intros Hk Hks. induction Hks as [|k' ks Hk' Hks IH]; simpl.
  - constructor; [exact Hk|constructor].
  - destruct (k ?= k'); repeat constructor; assumption.
Qed.

Lemma insert_key_sorted (k : Q) (ks : list Q) :
  StronglySorted Qlt ks -> StronglySorted Qlt (insert_key k ks).
Proof.
  induction 1 as [|k' ks Hs IH Hall]; simpl.
  - repeat constructor.
  - destruct (k ?= k') eqn:E.
    + constructor; assumption.
    + apply Qlt_alt in E. constructor; [constructor; assumption|].
      constructor; [exact E|].
      eapply Forall_impl; [|exact Hall].
      intros a Ha. eapply Qlt_trans; eassumption.
    + apply Qgt_alt in E. constructor; [exact IH|].
      apply insert_key_lower; assumption.
Qed.

Lemma fold_insert_sorted (rows : SpectrumTable) (acc : list Q) :
  StronglySorted Qlt acc ->
  StronglySorted Qlt
    (fold_left (fun ks r => insert_key (fst r) ks) rows acc).
Proof.
  revert acc. induction rows as [|r rows IH]; intros acc Hacc; simpl.
  - exact Hacc.
  - apply IH, insert_key_sorted, Hacc.
Qed.

Lemma fold_insert_InA (x : Q) (rows : SpectrumTable) (acc : list Q) :
  InA Qeq x (fold_left (fun ks r => insert_key (fst r) ks) rows acc)
  <-> InA Qeq x acc \/ InA Qeq x (wavelengths rows).
Proof.
  revert acc. induction rows as [|r rows IH]; intros acc; simpl.
  - rewrite InA_nil. tauto.
  - rewrite IH, insert_key_InA, InA_cons. tauto.
Qed.

(** The keys of the groups are strictly increasing: one group per
    distinct wavelength, in ascending order. *)
Lemma group_keys_sorted (rows : SpectrumTable) :
  StronglySorted Qlt (group_keys rows).
Proof. apply fold_insert_sorted. constructor. Qed.

Lemma group_keys_InA (x : Q) (rows : SpectrumTable) :
  InA Qeq x (group_keys rows) <-> InA Qeq x (wavelengths rows).
Proof. unfold group_keys. rewrite fold_insert_InA, InA_nil. tauto. Qed.

Lemma wavelengths_groupby (agg : list Q -> Q) (rows : SpectrumTable) :
  wavelengths (groupby_agg agg rows) = group_keys rows.
Proof.
  unfold wavelengths, groupby_agg. rewrite map_map. simpl. apply map_id.
Qed.

Lemma groupby_row (agg : list Q -> Q) (rows : SpectrumTable) (w v : Q) :
  In (w, v) (groupby_agg agg rows) -> v = agg (group_values w rows).
Proof.
  unfold groupby_agg. rewrite in_map_iff. intros [k [E _]].
  inversion E; subst. reflexivity.
Qed.

Lemma wavelengths_concat (x : Q) (spectra : list SpectrumTable) :
  InA Qeq x (wavelengths (List.concat spectra))
  <-> exists t, In t spectra /\ has_wavelength x t.
Proof.
  unfold has_wavelength, wavelengths.
  induction spectra as [|t spectra IH]; simpl.
  - rewrite InA_nil. split; [tauto|]. intros [t [[] _]].
  - rewrite map_app, InA_app_iff, IH. split.
    + intros [H|[t' [Hin H]]]; [exists t|exists t']; tauto.
    + intros [t' [[->|Hin] H]]; [left; exact H|right; exists t'; tauto].
Qed.

Lemma group_values_app (w : Q) (a b : SpectrumTable) :
  group_values w (a ++ b)%list = (group_values w a ++ group_values w b)%list.
Proof. unfold group_values. now rewrite filter_app, map_app. Qed.

(** A table that does not contain [w] contributes no intensity at [w]. *)
Lemma group_values_absent (w : Q) (t : SpectrumTable) :
  contains w t = false -> group_values w t = [].
Proof.
  unfold contains, group_values. induction t as [|r t IH]; simpl.
  - reflexivity.
  - intros H. apply orb_false_iff in H as [Hr Ht]. rewrite Hr. now apply IH.
Qed.

Lemma group_values_concat (w : Q) (spectra : list SpectrumTable) :
  group_values w (List.concat spectra)
  = flat_map (intensities_at w) (filter (contains w) spectra).
Proof.
  unfold intensities_at.
  induction spectra as [|t spectra IH]; simpl.
  - reflexivity.
  - rewrite group_values_app, IH.
    destruct (contains w t) eqn:E; simpl.
    + reflexivity.
    + now rewrite group_values_absent.
Qed.

Lemma group_values_present (w : Q) (rows : SpectrumTable) :
  InA Qeq w (wavelengths rows) -> group_values w rows <> [].
Proof.
  unfold wavelengths, group_values.
  induction rows as [|r rows IH]; simpl; intros H.
  - inversion H.
  - destruct (Qeq_bool (fst r) w) eqn:E; simpl; [discriminate|].
    apply IH. inversion H as [? ? Hw|? ? Hin]; subst; [|exact Hin].
    exfalso. symmetry in Hw. apply Qeq_bool_iff in Hw. congruence.
Qed.

Lemma In_group_keys (w v : Q) (agg : list Q -> Q) (rows : SpectrumTable) :
  In (w, v) (groupby_agg agg rows) -> InA Qeq w (wavelengths rows).
Proof.
  intros H. apply group_keys_InA.
  apply (in_map fst) in H. fold (wavelengths (groupby_agg agg rows)) in H.
  rewrite wavelengths_groupby in H. simpl in H.
  apply InA_alt. exists w. split; [reflexivity|exact H].
Qed.

Lemma fold_Qplus_shift (l : list Q) (a : Q) :
  fold_left Qplus l a == a + fold_left Qplus l 0.
Proof.
  revert a. induction l as [|x l IH]; intros a; simpl.
  - ring.
  - rewrite (IH (a + x)), (IH (0 + x)). ring.
Qed.

Lemma Qsum_cons (x : Q) (l : list Q) : Qsum (x :: l) == x + Qsum l.
Proof. unfold Qsum. simpl. rewrite fold_Qplus_shift. ring. Qed.

Lemma recorded_at_group_values (w : Q) (t : SpectrumTable) :
  recorded_at w t = group_values w t.
Proof.
  unfold group_values. induction t as [|[w' v] t IH]; simpl.
  - reflexivity.
  - destruct (Qeq_bool w' w); simpl; now rewrite IH.
Qed.

Lemma recorded_concat (w : Q) (spectra : list SpectrumTable) :
  flat_map (recorded_at w) (tables_with w spectra)
  = group_values w (List.concat spectra).
Proof.
  induction spectra as [|t spectra IH]; simpl.
  - reflexivity.
  - rewrite group_values_app, <- IH, <- recorded_at_group_values.
    destruct (recorded_at w t) as [|x l] eqn:E; simpl.
    + reflexivity.
    + now rewrite E.
Qed.

Lemma Qsum_total (l : list Q) : Qsum l == total l.
Proof.
  induction l as [|x l IH].
  - reflexivity.
  - rewrite Qsum_cons, IH. reflexivity.
Qed.

Lemma Qmean_arithmetic_mean (l : list Q) : Qmean l == arithmetic_mean l.
Proof. unfold Qmean, arithmetic_mean. now rewrite Qsum_total. Qed.

Lemma concat_nonempty (spectra : list SpectrumTable) :
  spectra <> [] -> concat spectra = Ok (List.concat spectra).
Proof. destruct spectra; [congruence|reflexivity]. Qed.

End AggregatorFacts.

(** C1.  For a non-empty list of spectrum tables both aggregations
    return a table.  Its wavelengths are those of the union of the
    inputs: a wavelength has a row exactly when some input table has it.
    The intensity of the row at a wavelength [w] is the arithmetic mean
    ([AverageSpectra]), respectively the sum ([AddSpectra]), of the
    intensities recorded at [w] by exactly the input tables that contain
    [w], and there is at least one such intensity.  Sum and mean are
    those of the specification, [total] and [arithmetic_mean], not the
    code's. *)
Theorem aggregate_partial_union (spectra : list SpectrumTable) :
  spectra <> [] ->
  exists average_spectra summed_spectra : SpectrumTable,
    Aggregator.AverageSpectra spectra = Ok average_spectra /\
    Aggregator.AddSpectra spectra = Ok summed_spectra /\
    (forall w, Aggregator.has_wavelength w average_spectra
               <-> exists t, In t spectra /\ Aggregator.has_wavelength w t) /\
    (forall w, Aggregator.has_wavelength w summed_spectra
               <-> exists t, In t spectra /\ Aggregator.has_wavelength w t) /\
    (forall w v, In (w, v) average_spectra ->
       flat_map (recorded_at w) (tables_with w spectra) <> []
       /\ v == arithmetic_mean
                 (flat_map (recorded_at w) (tables_with w spectra))) /\
    (forall w v, In (w, v) summed_spectra ->
       flat_map (recorded_at w) (tables_with w spectra) <> []
       /\ v == total (flat_map (recorded_at w) (tables_with w spectra))).
Proof.
  intros Hne.
  exists (Aggregator.groupby_agg Aggregator.Qmean (List.concat spectra)),
         (Aggregator.groupby_agg Aggregator.Qsum (List.concat spectra)).
  unfold Aggregator.AverageSpectra, Aggregator.AddSpectra.
  rewrite (concat_nonempty spectra Hne). simpl.
  assert (Hkeys : forall agg w,
            Aggregator.has_wavelength w
              (Aggregator.groupby_agg agg (List.concat spectra))
            <-> exists t, In t spectra /\ Aggregator.has_wavelength w t).
  { intros agg w. unfold Aggregator.has_wavelength at 1.
    rewrite wavelengths_groupby, group_keys_InA. apply wavelengths_concat. }
  split; [reflexivity|]. split; [reflexivity|].
  split; [apply Hkeys|]. split; [apply Hkeys|].
  split; intros w v H; rewrite recorded_concat;
    (split; [apply group_values_present; eapply In_group_keys; exact H|]);
    apply groupby_row in H; subst v.
  - apply Qmean_arithmetic_mean.
  - apply Qsum_total.
Qed.

(** Two exposures on different grids, neither of them sorted; only the
    wavelength 500 is common to both. *)
Lemma aggregate_partial_union_witness :
  [[(500, 10); (400, 7)]; [(600, 1); (500, 20)]] <> []
  /\ exists average_spectra summed_spectra : SpectrumTable,
    Aggregator.AverageSpectra [[(500, 10); (400, 7)]; [(600, 1); (500, 20)]]
      = Ok average_spectra /\
    Aggregator.AddSpectra [[(500, 10); (400, 7)]; [(600, 1); (500, 20)]]
      = Ok summed_spectra /\
    (forall w, Aggregator.has_wavelength w average_spectra
       <-> exists t, In t [[(500, 10); (400, 7)]; [(600, 1); (500, 20)]]
                     /\ Aggregator.has_wavelength w t) /\
    (forall w, Aggregator.has_wavelength w summed_spectra
       <-> exists t, In t [[(500, 10); (400, 7)]; [(600, 1); (500, 20)]]
                     /\ Aggregator.has_wavelength w t) /\
    (forall w v, In (w, v) average_spectra ->
       flat_map (recorded_at w)
         (tables_with w [[(500, 10); (400, 7)]; [(600, 1); (500, 20)]])
       <> []
       /\ v == arithmetic_mean
                 (flat_map (recorded_at w)
                    (tables_with w
                       [[(500, 10); (400, 7)]; [(600, 1); (500, 20)]]))) /\
    (forall w v, In (w, v) summed_spectra ->
       flat_map (recorded_at w)
         (tables_with w [[(500, 10); (400, 7)]; [(600, 1); (500, 20)]])
       <> []
       /\ v == total
                 (flat_map (recorded_at w)
                    (tables_with w
                       [[(500, 10); (400, 7)]; [(600, 1); (500, 20)]]))).
Proof.
  split; [discriminate|].
  apply (aggregate_partial_union
           [[(500, 10); (400, 7)]; [(600, 1); (500, 20)]]).
  discriminate.
Defined.

(** The numbers of that instance, worked out: 500 is recorded by both
    exposures, 400 and 600 by one each. *)
Example aggregate_partial_numbers :
  flat_map (recorded_at 500)
    (tables_with 500 [[(500, 10); (400, 7)]; [(600, 1); (500, 20)]])
  = [10; 20]
  /\ tables_with 400 [[(500, 10); (400, 7)]; [(600, 1); (500, 20)]]
     = [[(500, 10); (400, 7)]]
  /\ arithmetic_mean [10; 20] == 15
  /\ total [10; 20] == 30
  /\ Aggregator.AverageSpectra [[(500, 10); (400, 7)]; [(600, 1); (500, 20)]]
     = Ok [(400, 7 # 1); (500, 30 # 2); (600, 1 # 1)]
  /\ Aggregator.AddSpectra [[(500, 10); (400, 7)]; [(600, 1); (500, 20)]]
     = Ok [(400, 7 # 1); (500, 30 # 1); (600, 1 # 1)].
Proof. repeat split; reflexivity. Qed.

(** The scenario of the specification: A = {(500, 10)}, B = {(500, 20)}
    average to 15 and add up to 30 at 500. *)
Example aggregate_scenario :
  exists m s : Q,
    Aggregator.AverageSpectra [[(500, 10)]; [(500, 20)]] = Ok [(500, m)]
    /\ Aggregator.AddSpectra [[(500, 10)]; [(500, 20)]] = Ok [(500, s)]
    /\ m == 15 /\ s == 30.
Proof.
  eexists; eexists. split; [reflexivity|]. split; [reflexivity|].
  split; reflexivity.
Qed.

(** A wavelength met in one table only is aggregated from that table
    alone. *)
Example aggregate_partial_example :
  Aggregator.AverageSpectra [[(500, 10); (400, 7)]; [(600, 1); (500, 20)]]
  = Ok [(400, 7 # 1); (500, 30 # 2); (600, 1 # 1)].
Proof. reflexivity. Qed.

(** C8.  With an empty list of tables [AverageSpectra] and [AddSpectra]
    raise (the error pandas raises for an empty [concat], "No objects to
    concatenate") and return no table. *)
Theorem aggregate_empty_input :
  Aggregator.AverageSpectra []
    = Raise (ValueError "No objects to concatenate")
  /\ Aggregator.AddSpectra []
    = Raise (ValueError "No objects to concatenate")
  /\ (forall t, Aggregator.AverageSpectra [] <> Ok t)
  /\ (forall t, Aggregator.AddSpectra [] <> Ok t).
Proof.
  split; [reflexivity|]. split; [reflexivity|].
  split; intros t; discriminate.
Qed.

Lemma sorted_lt_le (l : list Q) :
  StronglySorted Qlt l -> StronglySorted Qle l.
Proof.
  induction 1 as [|a l Hs IH Hall]; constructor.
  - exact IH.
  - eapply Forall_impl; [|exact Hall]. intros b. apply Qlt_le_weak.
Qed.

(** The wavelengths of an aggregate are strictly increasing: no
    wavelength comes twice. *)
Lemma aggregate_strictly_sorted (spectra : list SpectrumTable)
    (out : SpectrumTable) :
  Aggregator.AverageSpectra spectra = Ok out
  \/ Aggregator.AddSpectra spectra = Ok out ->
  StronglySorted Qlt (wavelengths out).
Proof.
  unfold Aggregator.AverageSpectra, Aggregator.AddSpectra.
  destruct (Aggregator.concat spectra) as [rows|e]; simpl;
    intros [H|H]; inversion H; subst;
    rewrite wavelengths_groupby; apply group_keys_sorted.
Qed.

(** C9.  For a non-empty list of tables, sorted or not, both
    aggregations return a table whose wavelength column is in
    non-decreasing order: each wavelength is at most every later one. *)
Theorem aggregate_sorted (spectra : list SpectrumTable) :
  spectra <> [] ->
  exists average_spectra summed_spectra : SpectrumTable,
    Aggregator.AverageSpectra spectra = Ok average_spectra /\
    Aggregator.AddSpectra spectra = Ok summed_spectra /\
    StronglySorted Qle (wavelengths average_spectra) /\
    StronglySorted Qle (wavelengths summed_spectra).
Proof.
  intros Hne.
  exists (Aggregator.groupby_agg Aggregator.Qmean (List.concat spectra)),
         (Aggregator.groupby_agg Aggregator.Qsum (List.concat spectra)).
  unfold Aggregator.AverageSpectra, Aggregator.AddSpectra.
  rewrite (concat_nonempty spectra Hne). simpl.
  split; [reflexivity|]. split; [reflexivity|].
  split; apply sorted_lt_le; rewrite wavelengths_groupby;
    apply group_keys_sorted.
Qed.

Lemma aggregate_sorted_witness :
  [[(500, 10); (400, 7)]; [(600, 1); (500, 20)]] <> []
  /\ exists average_spectra summed_spectra : SpectrumTable,
    Aggregator.AverageSpectra [[(500, 10); (400, 7)]; [(600, 1); (500, 20)]]
      = Ok average_spectra /\
    Aggregator.AddSpectra [[(500, 10); (400, 7)]; [(600, 1); (500, 20)]]
      = Ok summed_spectra /\
    StronglySorted Qle (wavelengths average_spectra) /\
    StronglySorted Qle (wavelengths summed_spectra).
Proof.
  split; [discriminate|].
  apply (aggregate_sorted [[(500, 10); (400, 7)]; [(600, 1); (500, 20)]]).
  discriminate.
Defined.

(** ** The object store *)

Section StoreFacts.

Context {A : Type}.

Lemma length_update (l : list A) (i : nat) (x : A) :
  length (update l i x) = length l.
Proof.
  revert i. induction l as [|y l IH]; intros [|i]; simpl; auto.
Qed.

Lemma nth_error_update_eq (l : list A) (i : nat) (x : A) :
  (i < length l)%nat -> nth_error (update l i x) i = Some x.
Proof.
  revert i. induction l as [|y l IH]; intros [|i] H; simpl in *;
    try lia; auto. apply IH. lia.
Qed.

Lemma nth_error_update_ne (l : list A) (i j : nat) (x : A) :
  i <> j -> nth_error (update l i x) j = nth_error l j.
Proof.
  revert i j. induction l as [|y l IH]; intros [|i] [|j] H; simpl;
    try congruence; auto.
Qed.

Lemma firstn_update (l : list A) (n i : nat) (x : A) :
  (n <= i)%nat -> firstn n (update l i x) = firstn n l.
Proof.
  revert n i. induction l as [|y l IH]; intros [|n] [|i] H; simpl;
    try lia; auto. f_equal. apply IH. lia.
Qed.

Lemma firstn_app_keep (l l' : list A) (n : nat) :
  (n <= length l)%nat -> firstn n (l ++ l') = firstn n l.
Proof.
  intros H. rewrite firstn_app.
  replace (n - length l)%nat with 0%nat by lia.
  simpl. apply app_nil_r.
Qed.

End StoreFacts.

(** ** Corrector *)

Section CorrectorFacts.

Import Corrector.

Lemma keeps_refl (n : nat) (s : state) : keeps n s s.
Proof. split; auto. Qed.

Lemma keeps_trans (n : nat) (s1 s2 s3 : state) :
  keeps n s1 s2 -> keeps n s2 s3 -> keeps n s1 s3.
Proof. intros [H1 L1] [H2 L2]. split; [congruence|lia]. Qed.

Lemma isub_intensity_keeps (n p b : nat) (s : state) :
  (n <= p)%nat -> keeps n s (fst (isub_intensity p b s)).
Proof.
  intros Hp. unfold isub_intensity, mbind, deref, lift, assign.
  destruct (nth_error (objs s) p) as [df|] eqn:Ep; simpl;
    [|apply keeps_refl].
  destruct (Frame.getitem "intensity" df); simpl; [|apply keeps_refl].
  destruct (nth_error (objs s) b) as [bf|]; simpl; [|apply keeps_refl].
  destruct (Frame.getitem "intensity" bf); simpl; [|apply keeps_refl].
  destruct (Frame.series_isub a a0); simpl; [|apply keeps_refl].
  rewrite Ep. split; simpl.
  - now apply firstn_update.
  - rewrite length_update. lia.
Qed.

Lemma copy_spec (r : ref) (s : state) :
  (exists e, copy r s = (s, Raise e))
  \/ (exists df, nth_error (objs s) r = Some df
       /\ copy r s = (mkState (objs s ++ [df]) (stdout s),
                      Ok (length (objs s)))).
Proof.
  unfold copy, mbind, deref, alloc.
  destruct (nth_error (objs s) r) as [df|]; [right|left]; eauto.
Qed.

Lemma optional_isub_keeps (n p b : nat) (on : bool) (s : state) :
  (n <= p)%nat ->
  keeps n s (fst ((if on then isub_intensity p b else ret tt) s)).
Proof.
  intros Hp. destruct on; [now apply isub_intensity_keeps|apply keeps_refl].
Qed.

(** One turn of the loop touches no object that was there before it and
    hands back a reference to a new one. *)
Lemma process_one_keeps (n : nat) (background dark : ref)
    (sb sd : bool) (data : ref) (s s' : state) (res : result ref) :
  (n <= length (objs s))%nat ->
  process_one background dark sb sd data s = (s', res) ->
  keeps n s s'
  /\ forall p, res = Ok p -> (length (objs s) <= p < length (objs s'))%nat.
Proof.
  intros Hn H. unfold process_one, mbind in H.
  destruct (copy_spec data s) as [[e E]|[df [_ E]]]; rewrite E in H.
  - inversion H; subst. split; [apply keeps_refl|discriminate].
  - set (s1 := mkState (objs s ++ [df]) (stdout s)) in *.
    assert (K1 : keeps n s s1).
    { split; simpl; [now apply firstn_app_keep|rewrite length_app; lia]. }
    assert (L1 : length (objs s1) = S (length (objs s))).
    { simpl. rewrite length_app. simpl. lia. }
    pose proof (optional_isub_keeps n (length (objs s)) background sb s1 Hn)
      as K2.
    destruct ((if sb then isub_intensity (length (objs s)) background
               else ret tt) s1) as [s2 [[]|e]]; simpl in K2.
    + pose proof (optional_isub_keeps n (length (objs s)) dark sd s2 Hn)
        as K3.
      destruct ((if sd then isub_intensity (length (objs s)) dark
                 else ret tt) s2) as [s3 [[]|e]]; simpl in K3;
        inversion H; subst.
      * split.
        -- eapply keeps_trans; [exact K1|].
           eapply keeps_trans; [exact K2|exact K3].
        -- intros p Hp. inversion Hp; subst.
           destruct K2 as [_ K2], K3 as [_ K3]. lia.
      * split; [|discriminate].
        eapply keeps_trans; [exact K1|].
        eapply keeps_trans; [exact K2|exact K3].
    + inversion H; subst. split; [|discriminate].
      eapply keeps_trans; [exact K1|exact K2].
Qed.

Lemma each_loop_keeps (n : nat) (background dark : ref) (sb sd : bool)
    (rawdata acc : list ref) (s s' : state) (res : result (list ref)) :
  (n <= length (objs s))%nat ->
  each_loop background dark sb sd rawdata acc s = (s', res) ->
  keeps n s s'
  /\ forall refs, res = Ok refs ->
       exists fresh, refs = (acc ++ fresh)%list
         /\ length fresh = length rawdata
         /\ Forall (fun p => n <= p < length (objs s'))%nat fresh.
Proof.
  revert acc s. induction rawdata as [|data rest IH]; intros acc s Hn H;
    simpl in H.
  - inversion H; subst. split; [apply keeps_refl|].
    intros refs E. inversion E; subst. exists []. rewrite app_nil_r. auto.
  - unfold mbind in H.
    destruct (process_one background dark sb sd data s) as [s1 [p|e]] eqn:E1;
      destruct (process_one_keeps n _ _ _ _ _ _ _ _ Hn E1) as [K1 P1].
    + assert (Hn1 : (n <= length (objs s1))%nat) by (destruct K1; lia).
      destruct (IH (acc ++ [p])%list s1 Hn1 H) as [K2 P2].
      split; [eapply keeps_trans; eassumption|].
      intros refs E. destruct (P2 refs E) as [fresh [E' [L F]]].
      exists (p :: fresh). rewrite <- app_assoc in E'. simpl in E'.
      split; [exact E'|]. split; [simpl; congruence|].
      constructor; [|exact F].
      specialize (P1 p eq_refl).
      destruct K2 as [_ K2]. lia.
    + inversion H; subst. split; [exact K1|discriminate].
Qed.

Lemma relabelled_refl (a : DataFrame) : relabelled a a.
Proof. split; auto. Qed.

Lemma relabelled_trans (a b c : DataFrame) :
  relabelled a b -> relabelled b c -> relabelled a c.
Proof.
  intros [V1 C1] [V2 C2]. split; [congruence|].
  destruct C2 as [C2|C2]; [|now right].
  destruct C1 as [C1|C1]; [left|right]; congruence.
Qed.

Lemma store_relabelled_refl (h : list DataFrame) : store_relabelled h h.
Proof.
  split; [reflexivity|]. intros i a H. exists a. split; [exact H|].
  apply relabelled_refl.
Qed.

Lemma store_relabelled_trans (h1 h2 h3 : list DataFrame) :
  store_relabelled h1 h2 -> store_relabelled h2 h3 ->
  store_relabelled h1 h3.
Proof.
  intros [L1 R1] [L2 R2]. split; [congruence|].
  intros i a H. destruct (R1 i a H) as [b [Hb Rb]].
  destruct (R2 i b Hb) as [c [Hc Rc]]. exists c. split; [exact Hc|].
  eapply relabelled_trans; eassumption.
Qed.

Lemma relabel_relabelled (df : DataFrame) :
  Frame.shape1 df = 2%nat -> relabelled df (relabel df).
Proof.
  unfold Frame.shape1, relabel, relabelled, Frame.values, Frame.columns.
  destruct df as [|[n0 c0] [|[n1 c1] [|x df]]]; simpl; try discriminate.
  intros _. auto.
Qed.

Lemma set_columns_required (df : DataFrame) :
  Frame.shape1 df = 2%nat ->
  Frame.set_columns required_columns df = Ok (relabel df).
Proof.
  unfold Frame.shape1, Frame.set_columns. intros ->. reflexivity.
Qed.

Lemma store_relabelled_update (h : list DataFrame) (r : ref)
    (df df' : DataFrame) :
  nth_error h r = Some df -> relabelled df df' ->
  store_relabelled h (update h r df').
Proof.
  intros Hr Rel. split; [apply length_update|].
  intros i a Hi. destruct (Nat.eq_dec r i) as [<-|Hne].
  - exists df'. split.
    + apply nth_error_update_eq. apply nth_error_Some. congruence.
    + congruence.
  - exists a. rewrite nth_error_update_ne by exact Hne.
    split; [exact Hi|apply relabelled_refl].
Qed.

(** The first loop of [ProcessData] only ever relabels, and only the
    frames it is given. *)
Lemma check_columns_relabels (dfs : list ref) (s s' : state)
    (res : result bool) :
  check_columns dfs s = (s', res) ->
  store_relabelled (objs s) (objs s')
  /\ forall i, ~ In i dfs -> nth_error (objs s') i = nth_error (objs s) i.
Proof.
  revert s. induction dfs as [|r rest IH]; intros s H; simpl in H.
  - inversion H; subst. split; [apply store_relabelled_refl|auto].
  - unfold mbind, deref in H.
    destruct (nth_error (objs s) r) as [df|] eqn:Er.
    + destruct (Nat.eqb (Frame.shape1 df) 2) eqn:E2; simpl in H.
      * apply Nat.eqb_eq in E2.
        rewrite (set_columns_required df E2) in H. simpl in H.
        apply IH in H. simpl in H. destruct H as [Rel Oth]. split.
        -- eapply store_relabelled_trans; [|exact Rel].
           eapply store_relabelled_update; [exact Er|].
           now apply relabel_relabelled.
        -- intros i Hi. simpl in Hi. rewrite Oth by tauto.
           apply nth_error_update_ne. tauto.
      * inversion H; subst. simpl.
        split; [apply store_relabelled_refl|auto].
    + inversion H; subst. split; [apply store_relabelled_refl|auto].
Qed.

Lemma shape1_values (df : DataFrame) :
  Frame.shape1 df = length (Frame.values df).
Proof. unfold Frame.shape1, Frame.values. now rewrite length_map. Qed.

Lemma shape0_values (df : DataFrame) :
  Frame.shape0 df = match Frame.values df with
                    | [] => 0%nat
                    | c :: _ => length c
                    end.
Proof. destruct df as [|[n c] df]; reflexivity. Qed.

Lemma relabelled_shape (a b : DataFrame) :
  relabelled a b ->
  Frame.shape1 b = Frame.shape1 a /\ Frame.shape0 b = Frame.shape0 a.
Proof.
  intros [V _]. rewrite !shape1_values, !shape0_values, V. auto.
Qed.

Lemma two_columns_relabelled (h h' : list DataFrame) (r : ref) :
  store_relabelled h h' -> two_columns h' r = two_columns h r.
Proof.
  intros [L R]. unfold two_columns.
  destruct (nth_error h r) as [a|] eqn:E.
  - destruct (R r a E) as [b [-> Rel]].
    now destruct (relabelled_shape a b Rel) as [-> _].
  - apply nth_error_None in E.
    assert (E' : nth_error h' r = None) by (apply nth_error_None; lia).
    now rewrite E'.
Qed.

Lemma all_two_columns_relabelled (h h' : list DataFrame) (l : list ref) :
  store_relabelled h h' ->
  forallb (two_columns h') l = forallb (two_columns h) l.
Proof.
  intros Rel. induction l as [|x l IH]; simpl; [reflexivity|].
  now rewrite IH, (two_columns_relabelled h h' x Rel).
Qed.

Lemma relabel_columns (df : DataFrame) :
  Frame.shape1 df = 2%nat -> Frame.columns (relabel df) = required_columns.
Proof.
  intros H. destruct (relabel_relabelled df H) as [_ [C|C]]; [|exact C].
  revert H C. unfold Frame.shape1, relabel, Frame.values, Frame.columns.
  destruct df as [|[n0 c0] [|[n1 c1] [|x df]]]; simpl; try discriminate.
  reflexivity.
Qed.

(** With live references the first loop raises nothing: it answers
    whether every frame has two columns, prints one line when it does
    not, and leaves the frames it passed relabelled. *)
Lemma check_columns_result (dfs : list ref) (s : state) :
  Forall (fun r => r < length (objs s))%nat dfs ->
  exists s',
    check_columns dfs s = (s', Ok (forallb (two_columns (objs s)) dfs))
    /\ stdout s'
       = (if forallb (two_columns (objs s)) dfs then stdout s
          else (stdout s
                ++ ["ERROR EXCEPTION: Data should have exactly two columns"])%list)
    /\ (forallb (two_columns (objs s)) dfs = true ->
        Forall (fun r => exists df, nth_error (objs s') r = Some df
                         /\ Frame.columns df = required_columns) dfs).
Proof.
  revert s. induction dfs as [|r rest IH]; intros s Hv.
  - exists s. simpl. auto.
  - inversion Hv as [|? ? Hr Hrest]; subst.
    destruct (nth_error (objs s) r) as [df|] eqn:Er;
      [|apply nth_error_None in Er; lia].
    simpl. unfold two_columns at 1 3 5. rewrite Er.
    unfold mbind at 1, deref. rewrite Er.
    destruct (Nat.eqb (Frame.shape1 df) 2) eqn:E2; simpl.
    + apply Nat.eqb_eq in E2.
      unfold mbind at 1. rewrite (set_columns_required df E2). simpl.
      unfold mbind at 1. simpl.
      set (s1 := mkState (update (objs s) r (relabel df)) (stdout s)).
      assert (Rel1 : store_relabelled (objs s) (objs s1)).
      { eapply store_relabelled_update; [exact Er|].
        now apply relabel_relabelled. }
      assert (Hv1 : Forall (fun r => r < length (objs s1))%nat rest).
      { simpl. now rewrite length_update. }
      destruct (IH s1 Hv1) as [s' [Hrun [Hout Hcols]]].
      pose proof (all_two_columns_relabelled _ _ rest Rel1) as Efor.
      rewrite Efor in Hrun, Hout, Hcols.
      exists s'. split; [exact Hrun|]. split; [exact Hout|].
      intros Hall. constructor; [|now apply Hcols].
      destruct (check_columns_relabels rest s1 s' _ Hrun) as [[_ R] _].
      destruct (R r (relabel df)) as [b [Hb [_ C]]].
      { simpl. apply nth_error_update_eq. exact Hr. }
      exists b. split; [exact Hb|].
      rewrite (relabel_columns df E2) in C. tauto.
    + exists (mkState (objs s)
                (stdout s
                 ++ ["ERROR EXCEPTION: Data should have exactly two columns"])).
      split; [reflexivity|]. split; [reflexivity|discriminate].
Qed.

Lemma update_app_last {A : Type} (l : list A) (x y : A) :
  update (l ++ [x]) (length l) y = (l ++ [y])%list.
Proof. induction l as [|a l IH]; simpl; [reflexivity|now rewrite IH]. Qed.

Lemma required_frame (df : DataFrame) :
  Frame.columns df = required_columns ->
  df = [("wavelength", nth 0 (Frame.values df) []);
        ("intensity", nth 1 (Frame.values df) [])].
Proof.
  unfold Frame.columns, required_columns.
  destruct df as [|[n0 c0] [|[n1 c1] [|x df]]]; simpl; try discriminate.
  intros H. inversion H; subst. reflexivity.
Qed.

Lemma getitem_intensity (df : DataFrame) :
  Frame.columns df = required_columns ->
  Frame.getitem "intensity" df = Ok (nth 1 (Frame.values df) []).
Proof. intros C. now rewrite (required_frame df C) at 1. Qed.

Lemma setitem_intensity (df : DataFrame) (c : list Q) :
  Frame.columns df = required_columns ->
  Frame.setitem "intensity" c df
  = [("wavelength", nth 0 (Frame.values df) []); ("intensity", c)].
Proof. intros C. now rewrite (required_frame df C) at 1. Qed.

Lemma ProcessData_unfold (r b d : ref) (s s1 : state) (ok : bool) :
  check_columns [r; b; d] s = (s1, Ok ok) ->
  ProcessData r b d s = ProcessData_tail r b d ok s1.
Proof. intros H. unfold ProcessData, mbind at 1. now rewrite H. Qed.

(** What [ProcessData] does on three live references: either the shapes
    are right and it appends the corrected table to the store, or it
    prints one line and returns [None] with no new object.  Either way
    the objects that were there are at most relabelled. *)
Lemma ProcessData_run (r b d : ref) (s : state) (fr fb fd : DataFrame) :
  nth_error (objs s) r = Some fr ->
  nth_error (objs s) b = Some fb ->
  nth_error (objs s) d = Some fd ->
  exists h1, store_relabelled (objs s) h1
    /\ (forall i, i <> r -> i <> b -> i <> d ->
          nth_error h1 i = nth_error (objs s) i)
    /\ if shape_ok fr fb fd then
         ProcessData r b d s
         = (mkState (h1 ++ [corrected fr fb fd]) (stdout s),
            Ok (Some (length (objs s))))
         /\ Forall (fun x => exists df, nth_error h1 x = Some df
                      /\ Frame.columns df = required_columns) [r; b; d]
       else
         exists line,
           ProcessData r b d s
           = (mkState h1 (stdout s ++ [line]), Ok None).
Proof.
  intros Hr Hb Hd.
  assert (Hv : Forall (fun x => x < length (objs s))%nat [r; b; d]).
  { repeat constructor; apply nth_error_Some; congruence. }
  destruct (check_columns_result [r; b; d] s Hv) as [s1 [Hrun [Hout Hcols]]].
  destruct (check_columns_relabels _ _ _ _ Hrun) as [Rel Oth].
  exists (objs s1). split; [exact Rel|]. split.
  { intros i H1 H2 H3. apply Oth. simpl. intuition congruence. }
  assert (Eshape : shape_ok fr fb fd
                   = forallb (two_columns (objs s)) [r; b; d]
                     && (Nat.eqb (Frame.shape0 fr) (Frame.shape0 fb)
                         && Nat.eqb (Frame.shape0 fb) (Frame.shape0 fd))).
  { unfold shape_ok. simpl. unfold two_columns. rewrite Hr, Hb, Hd.
    destruct (Nat.eqb (Frame.shape1 fr) 2), (Nat.eqb (Frame.shape1 fb) 2),
      (Nat.eqb (Frame.shape1 fd) 2); reflexivity. }
  rewrite Eshape. rewrite (ProcessData_unfold r b d s s1 _ Hrun).
  unfold ProcessData_tail.
  destruct (forallb (two_columns (objs s)) [r; b; d]) eqn:E2; simpl.
  - specialize (Hcols eq_refl).
    inversion Hcols as [|? ? [r' [Hr' Cr']] Hcols']; subst.
    inversion Hcols' as [|? ? [b' [Hb' Cb']] Hcols'']; subst.
    inversion Hcols'' as [|? ? [d' [Hd' Cd']] _]; subst.
    destruct Rel as [Len Rel].
    destruct (Rel r fr Hr) as [r2 [Hr2 Relr]].
    destruct (Rel b fb Hb) as [b2 [Hb2 Relb]].
    destruct (Rel d fd Hd) as [d2 [Hd2 Reld]].
    assert (r2 = r') by congruence. assert (b2 = b') by congruence.
    assert (d2 = d') by congruence. subst r2 b2 d2.
    destruct (relabelled_shape _ _ Relr) as [_ S0r].
    destruct (relabelled_shape _ _ Relb) as [_ S0b].
    destruct (relabelled_shape _ _ Reld) as [_ S0d].
    destruct Relr as [Vr _], Relb as [Vb _], Reld as [Vd _].
    destruct (Nat.eqb (Frame.shape0 fr) (Frame.shape0 fb)
              && Nat.eqb (Frame.shape0 fb) (Frame.shape0 fd)) eqn:E0;
      [|exists "ERROR EXCEPTION: Data should have the same length"];
      unfold mbind at 1, deref; rewrite Hr';
      unfold mbind at 1; rewrite Hb';
      unfold mbind at 1; rewrite Hd';
      rewrite S0r, S0b, S0d, E0; simpl.
    + split; [|exact Hcols].
      unfold mbind at 1, copy, mbind at 1, deref, alloc. rewrite Hr'. simpl.
      unfold mbind, lift.
      rewrite (getitem_intensity r' Cr'), (getitem_intensity b' Cb'),
        (getitem_intensity d' Cd').
      simpl. rewrite nth_error_app2 by lia. rewrite Nat.sub_diag. simpl.
      rewrite update_app_last, (setitem_intensity r' _ Cr'), Hout, Len.
      unfold corrected. now rewrite Vr, Vb, Vd.
    + unfold mbind, print. simpl. now rewrite Hout.
  - exists "ERROR EXCEPTION: Data should have exactly two columns".
    unfold ret. rewrite <- Hout. now destruct s1.
Qed.

(** With both subtractions off [ProcessDataEach] looks at neither the
    background nor the dark table: it copies every raw table. *)
Lemma each_loop_off (background dark : ref) (rawdata acc : list ref)
    (s : state) :
  Forall (fun r => r < length (objs s))%nat rawdata ->
  each_loop background dark false false rawdata acc s
  = (mkState (objs s ++ map (fun r => nth r (objs s) []) rawdata)
             (stdout s),
     Ok (acc ++ seq (length (objs s)) (length rawdata))%list).
Proof.
  revert acc s. induction rawdata as [|data rest IH]; intros acc s Hv; simpl.
  - rewrite !app_nil_r. now destruct s.
  - inversion Hv as [|? ? Hd Hrest]; subst.
    destruct (nth_error (objs s) data) as [df|] eqn:E;
      [|apply nth_error_None in E; lia].
    unfold mbind at 1, process_one, mbind at 1, copy, mbind at 1, deref, alloc.
    rewrite E. simpl.
    rewrite IH.
    + simpl. rewrite length_app. simpl.
      rewrite <- !app_assoc. simpl.
      rewrite (nth_error_nth _ _ _ E).
      replace (length (objs s) + 1)%nat with (S (length (objs s))) by lia.
      f_equal. f_equal. f_equal. f_equal.
      apply map_ext_in. intros r Hr.
      rewrite Forall_forall in Hrest. apply app_nth1. now apply Hrest.
    + simpl. eapply Forall_impl; [|exact Hrest].
      intros r Hr. simpl in Hr. rewrite length_app. simpl. lia.
Qed.

End CorrectorFacts.

(** C5, as the code has it.  [ProcessData] checks the shapes: whenever
    the three tables do not all have two columns and one row count it
    prints one line, returns [None] and creates no table.
    [ProcessDataEach] checks nothing (its validation is commented out):
    with both subtractions off it returns a copy of every raw table,
    whatever the shapes of the background and the dark table. *)
Theorem corrector_shape_check (r b d : ref) (rawdata : list ref)
    (s : state) (fr fb fd : DataFrame) :
  nth_error (objs s) r = Some fr ->
  nth_error (objs s) b = Some fb ->
  nth_error (objs s) d = Some fd ->
  Forall (fun x => x < length (objs s))%nat rawdata ->
  shape_ok fr fb fd = false ->
  (exists h1 line,
      Corrector.ProcessData r b d s
      = (mkState h1 (stdout s ++ [line]), Ok None)
      /\ length h1 = length (objs s))
  /\ Corrector.ProcessDataEach rawdata b d false false s
     = (mkState (objs s ++ map (fun x => nth x (objs s) []) rawdata)
                (stdout s),
        Ok (seq (length (objs s)) (length rawdata))).
Proof.
  intros Hr Hb Hd Hraw Hshape. split.
  - destruct (ProcessData_run r b d s fr fb fd Hr Hb Hd)
      as [h1 [[Len _] [_ Hrun]]].
    rewrite Hshape in Hrun. destruct Hrun as [line Hrun].
    exists h1, line. split; [exact Hrun|exact Len].
  - unfold Corrector.ProcessDataEach. now rewrite each_loop_off.
Qed.

(** The scenario of the specification, a raw table of five rows and a
    background of four, through both operations. *)
Lemma corrector_shape_check_witness :
  (exists h1 line,
      Corrector.ProcessData 0%nat 1%nat 2%nat (mkState [raw5; background4; dark5] [])
      = (mkState h1 ([] ++ [line])%list, Ok None)
      /\ length h1 = 3%nat)
  /\ Corrector.ProcessDataEach [0%nat] 1%nat 2%nat false false
       (mkState [raw5; background4; dark5] [])
     = (mkState [raw5; background4; dark5; raw5] [], Ok [3%nat]).
Proof.
  apply (corrector_shape_check 0%nat 1%nat 2%nat [0%nat]
           (mkState [raw5; background4; dark5] [])
           raw5 background4 dark5).
  - reflexivity.
  - reflexivity.
  - reflexivity.
  - repeat constructor.
  - reflexivity.
Defined.

(** C5 fails on [ProcessDataEach]: a raw table of five rows with a
    background of four and the default switches raises nothing and
    returns a table. *)
Lemma corrector_shape_counterexample :
  shape_ok raw5 background4 dark5 = false
  /\ Corrector.ProcessDataEach [0%nat] 1%nat 2%nat false false
       (mkState [raw5; background4; dark5] [])
     = (mkState [raw5; background4; dark5; raw5] [], Ok [3%nat]).
Proof. split; reflexivity. Qed.

(** In [ProcessData] the same three tables come out as [None] and the
    printed line. *)
Example ProcessData_scenario :
  Corrector.ProcessData 0%nat 1%nat 2%nat (mkState [raw5; background4; dark5] [])
  = (mkState [raw5; background4; dark5]
       ["ERROR EXCEPTION: Data should have the same length"],
     Ok None).
Proof. reflexivity. Qed.

(** With a subtraction switched on, the mismatch surfaces as numpy's
    [ValueError], and again no table is returned. *)
Example ProcessDataEach_mismatch_on :
  snd (Corrector.ProcessDataEach [0%nat] 1%nat 2%nat true false
         (mkState [raw5; background4; dark5] []))
  = Raise (ValueError "operands could not be broadcast together").
Proof. reflexivity. Qed.

(** Shapes right: the corrected table is raw less background less dark,
    cell by cell. *)
Example ProcessData_corrects :
  Corrector.ProcessData 0%nat 1%nat 2%nat (mkState [raw5; background5; dark5] [])
  = (mkState [raw5; background5; dark5; corrected raw5 background5 dark5] [],
     Ok (Some 3%nat)).
Proof. reflexivity. Qed.

Section CorrectorFrame.

Import Corrector.

Lemma firstn_app_all {A : Type} (l l' : list A) :
  firstn (length l) (l ++ l') = l.
Proof.
  rewrite firstn_app, Nat.sub_diag, firstn_all. simpl. apply app_nil_r.
Qed.

(** After its first loop [ProcessData] writes to no object it was given:
    at most it appends one. *)
Lemma ProcessData_tail_keeps (r b d : ref) (ok : bool) (s1 s' : state)
    (res : result (option ref)) :
  ProcessData_tail r b d ok s1 = (s', res) ->
  firstn (length (objs s1)) (objs s') = objs s1
  /\ forall p, res = Ok (Some p) ->
       p = length (objs s1) /\ (p < length (objs s'))%nat.
Proof.
  unfold ProcessData_tail, mbind, deref, copy, mbind, deref, alloc, lift,
    assign, print, ret.
  destruct ok; simpl.
  2: { intros H. inversion H; subst. rewrite firstn_all.
       split; [reflexivity|discriminate]. }
  destruct (nth_error (objs s1) r) as [fr|] eqn:Er.
  2: { intros H. inversion H; subst. rewrite firstn_all.
       split; [reflexivity|discriminate]. }
  destruct (nth_error (objs s1) b) as [fb|] eqn:Eb.
  2: { intros H. inversion H; subst. rewrite firstn_all.
       split; [reflexivity|discriminate]. }
  destruct (nth_error (objs s1) d) as [fd|] eqn:Ed.
  2: { intros H. inversion H; subst. rewrite firstn_all.
       split; [reflexivity|discriminate]. }
  destruct (Nat.eqb (Frame.shape0 fr) (Frame.shape0 fb)
            && Nat.eqb (Frame.shape0 fb) (Frame.shape0 fd)); simpl.
  2: { intros H. inversion H; subst. simpl. rewrite firstn_all.
       split; [reflexivity|discriminate]. }
  rewrite Er. simpl.
  destruct (Frame.getitem "intensity" fr) as [ri|e]; simpl.
  2: { intros H. inversion H; subst. simpl. rewrite firstn_app_all.
       split; [reflexivity|discriminate]. }
  destruct (Frame.getitem "intensity" fb) as [bi|e]; simpl.
  2: { intros H. inversion H; subst. simpl. rewrite firstn_app_all.
       split; [reflexivity|discriminate]. }
  destruct (Frame.getitem "intensity" fd) as [di|e]; simpl.
  2: { intros H. inversion H; subst. simpl. rewrite firstn_app_all.
       split; [reflexivity|discriminate]. }
  rewrite nth_error_app2 by lia. rewrite Nat.sub_diag. simpl.
  rewrite update_app_last.
  intros H. inversion H; subst. simpl. rewrite firstn_app_all.
  split; [reflexivity|]. intros p Hp. inversion Hp; subst.
  rewrite length_app. simpl. lia.
Qed.

Lemma ProcessData_frame (r b d : ref) (s s' : state)
    (res : result (option ref)) :
  ProcessData r b d s = (s', res) ->
  store_relabelled (objs s) (firstn (length (objs s)) (objs s'))
  /\ (forall i, i <> r -> i <> b -> i <> d -> (i < length (objs s))%nat ->
        nth_error (objs s') i = nth_error (objs s) i)
  /\ forall p, res = Ok (Some p) ->
       p = length (objs s) /\ (p < length (objs s'))%nat.
Proof.
  intros H.
  destruct (check_columns [r; b; d] s) as [s1 [ok|e]] eqn:Hc.
  - rewrite (ProcessData_unfold r b d s s1 ok Hc) in H.
    destruct (check_columns_relabels _ _ _ _ Hc) as [Rel Oth].
    destruct (ProcessData_tail_keeps _ _ _ _ _ _ _ H) as [K P].
    assert (Len : length (objs s1) = length (objs s)) by apply Rel.
    rewrite Len in K, P. rewrite K.
    split; [exact Rel|]. split; [|exact P].
    intros i H1 H2 H3 Hi. rewrite <- Oth by (simpl; intuition congruence).
    rewrite <- K, nth_error_firstn.
    destruct (Nat.ltb_spec i (length (objs s))); [reflexivity|lia].
  - unfold ProcessData, mbind at 1 in H. rewrite Hc in H.
    inversion H; subst.
    destruct (check_columns_relabels _ _ _ _ Hc) as [Rel Oth].
    assert (Len : length (objs s') = length (objs s)) by apply Rel.
    rewrite <- Len, firstn_all.
    split; [exact Rel|]. split; [|discriminate].
    intros i H1 H2 H3 Hi. apply Oth. simpl. intuition congruence.
Qed.

End CorrectorFrame.

(** C7, as the code has it.  [ProcessDataEach] writes to no object it
    was given: whatever it does, raising included, every object of the
    store is afterwards what it was, and the tables it returns are new
    objects.  [ProcessData] leaves the cells of every object untouched
    and returns a new object, but it relabels: an object comes out under
    its own column names or under ['wavelength'], ['intensity'], and only
    the three tables passed in can change at all. *)
Theorem corrector_inputs_kept (rawdata : list ref) (r b d : ref)
    (sb sd : bool) (s : state) :
  (let out := Corrector.ProcessDataEach rawdata b d sb sd s in
   firstn (length (objs s)) (objs (fst out)) = objs s
   /\ forall refs, snd out = Ok refs ->
        Forall (fun p => length (objs s) <= p < length (objs (fst out)))%nat
               refs)
  /\
  (let out := Corrector.ProcessData r b d s in
   (forall i a, nth_error (objs s) i = Some a ->
      exists a', nth_error (objs (fst out)) i = Some a'
        /\ Frame.values a' = Frame.values a
        /\ (Frame.columns a' = Frame.columns a
            \/ Frame.columns a' = Corrector.required_columns))
   /\ (forall i a, i <> r -> i <> b -> i <> d ->
         nth_error (objs s) i = Some a ->
         nth_error (objs (fst out)) i = Some a)
   /\ forall p, snd out = Ok (Some p) ->
        p = length (objs s) /\ (p < length (objs (fst out)))%nat).
Proof.
  split.
  - unfold Corrector.ProcessDataEach.
    destruct (Corrector.each_loop b d sb sd rawdata [] s) as [s' res] eqn:E.
    destruct (each_loop_keeps (length (objs s)) _ _ _ _ _ _ _ _ _
                (le_n _) E) as [[K _] P].
    simpl. rewrite firstn_all in K. split; [exact K|].
    intros refs Hres. destruct (P refs Hres) as [fresh [-> [_ F]]].
    exact F.
  - destruct (Corrector.ProcessData r b d s) as [s' res] eqn:E.
    destruct (ProcessData_frame r b d s s' res E) as [[Len Rel] [Oth P]].
    simpl. split; [|split; [|exact P]].
    + intros i a Hi. destruct (Rel i a Hi) as [a' [Ha' [V C]]].
      exists a'. split; [|auto].
      rewrite nth_error_firstn in Ha'.
      destruct (Nat.ltb i (length (objs s))); [exact Ha'|discriminate].
    + intros i a H1 H2 H3 Hi. rewrite Oth; auto.
      apply nth_error_Some. congruence.
Qed.

(** C7 fails on [ProcessData]: three tables read without a header line,
    their columns labelled 0 and 1, come back relabelled. *)
Lemma corrector_inputs_counterexample :
  Frame.columns (headerless raw5) = ["0"; "1"]
  /\ nth_error
       (objs (fst (Corrector.ProcessData 0%nat 1%nat 2%nat
                     (mkState [headerless raw5; headerless background5;
                               headerless dark5] []))))
       0%nat
     = Some raw5
  /\ Frame.columns raw5 = ["wavelength"; "intensity"]
  /\ raw5 <> headerless raw5.
Proof.
  split; [reflexivity|]. split; [reflexivity|].
  split; [reflexivity|discriminate].
Qed.

Example ProcessDataEach_keeps_labels :
  Corrector.ProcessDataEach [0%nat] 1%nat 2%nat true true
    (mkState [headerless raw5; headerless background5; headerless dark5] [])
  = (mkState [headerless raw5; headerless background5; headerless dark5;
              headerless raw5]
       [], Raise (KeyError "intensity")).
Proof. reflexivity. Qed.

(** ** Window selection and the module-level names *)

(** The first argument of [DefSpectrumForLines] is dead. *)
Lemma DefSpectrumForLines_ignores_spectr (g : globals)
    (spectr spectr' : DataFrame) (minwavelength maxwavelength : Q) :
  DefSpectrumForLines g spectr minwavelength maxwavelength
  = DefSpectrumForLines g spectr' minwavelength maxwavelength.
Proof. reflexivity. Qed.

(** So is the [wavelength] argument of the detection loops. *)
Lemma detect_ignores_wavelength (g : globals)
    (spectra wavelength wavelength' : list Q)
    (spectral_lines : list (string * Q))
    (telluric_lines : list (string * list Q)) (threshold : Q) :
  Detector.detect g spectra wavelength spectral_lines telluric_lines threshold
  = Detector.detect g spectra wavelength' spectral_lines telluric_lines
      threshold.
Proof. reflexivity. Qed.

(** C3, the code at a failing input.  The same arguments give different
    results under two states of the module's globals:
    [DefSpectrumForLines] windows [sum_spectra], not the table it is
    passed, and the detection loops snap on [wavelength_truncated], not
    on the wavelength array they are passed.  With the names unbound both
    raise [NameError]. *)
Theorem globals_decide_results :
  DefSpectrumForLines session_a
    (frame_of_table [(400, 1); (450, 2); (500, 3)]) 400 500
  = Ok ([400; 450; 500], [1; 2; 3])
  /\ DefSpectrumForLines session_b
       (frame_of_table [(400, 1); (450, 2); (500, 3)]) 400 500
     = Ok ([400; 450], [9; 8])
  /\ DefSpectrumForLines (mkGlobals None None)
       (frame_of_table [(400, 1); (450, 2); (500, 3)]) 400 500
     = Raise (NameError "sum_spectra")
  /\ Detector.detect session_a (dip 30 15) (grid 30) [("X", 15)]
       [("TL", [])] (1 # 2)
     = Ok ([("X", 15)], [])
  /\ Detector.detect session_b (dip 30 15) (grid 30) [("X", 15)]
       [("TL", [])] (1 # 2)
     = Ok ([], [])
  /\ Detector.detect (mkGlobals None None) (dip 30 15) (grid 30) [("X", 15)]
       [("TL", [])] (1 # 2)
     = Raise (NameError "wavelength_truncated").
Proof. repeat split; vm_compute; reflexivity. Qed.

(** ** Line detection *)

(** C2, the code at failing inputs, on a window of 30 samples.  A
    catalog line deep enough at position 25 makes the loop read position
    35 and raise [IndexError]; the entry after it is never looked at.  A
    catalog line at position 3 is compared with position -7, which numpy
    counts from the end, and is reported.  The telluric loop does the same
    one sample from the ends: position 29 raises, position 0 is compared
    with the last sample and reported. *)
Theorem detector_edges :
  Detector.detect session_a (dip 30 25) (grid 30)
    [("X", 25); ("Y", 15)] [("TL", [])] (1 # 2)
  = Raise IndexError
  /\ Detector.detect session_a (dip 30 3) (grid 30)
       [("X", 3)] [("TL", [])] (1 # 2)
     = Ok ([("X", 3)], [])
  /\ Detector.detect session_a (dip 30 29) (grid 30)
       [] [("TL", [29; 15])] (1 # 2)
     = Raise IndexError
  /\ Detector.detect session_a (dip 30 0) (grid 30)
       [] [("TL", [0])] (1 # 2)
     = Ok ([], [(0, 0)]).
Proof. repeat split; vm_compute; reflexivity. Qed.

(** Away from the ends the same lines are found and nothing is raised. *)
Example detector_interior :
  Detector.detect session_a (dip 30 15) (grid 30)
    [("X", 15); ("Y", 12)] [("TL", [15; 20])] (1 # 2)
  = Ok ([("X", 15)], [(15, 15)]).
Proof. vm_compute. reflexivity. Qed.

(** A dip shallower than the threshold is not confirmed. *)
Example detector_threshold :
  Detector.detect session_a (dip 30 15) (grid 30)
    [("X", 15)] [("TL", [])] 2
  = Ok ([], []).
Proof. vm_compute. reflexivity. Qed.

Section DetectorFacts.

Import Detector.

Lemma Qlt_bool_iff (a b : Q) : Np.Qlt_bool a b = true <-> a < b.
Proof.
  unfold Np.Qlt_bool. rewrite negb_true_iff. split.
  - intros H. apply Qnot_le_lt. intros Hle.
    apply Qle_bool_iff in Hle. congruence.
  - intros H. destruct (Qle_bool b a) eqn:E; [|reflexivity].
    apply Qle_bool_iff in E. exfalso. now apply (Qlt_not_le a b).
Qed.

Lemma dict_set_keys (x k v : Q) (d : list (Q * Q)) :
  InA Qeq x (keys (dict_set Qeq_bool k v d))
  <-> x == k \/ InA Qeq x (keys d).
Proof.
  unfold keys. induction d as [|[k' v'] d IH]; simpl.
  - rewrite InA_cons, InA_nil. tauto.
  - destruct (Qeq_bool k' k) eqn:E; simpl.
    + apply Qeq_bool_iff in E. rewrite !InA_cons. split; [tauto|].
      intros [H|H]; [left; now rewrite H, E|exact H].
    + rewrite !InA_cons, IH. tauto.
Qed.

(** The test on one line answers [True] exactly when the depth cutoff is
    met and the flux at the snapped index is below the flux [k] samples
    before and [k] samples after it, read as numpy reads them. *)
Lemma line_test_true (g : globals) (spectra : list Q) (cutoff : Q) (k : Z)
    (line_wavelength : Q) :
  line_test g spectra cutoff k line_wavelength = Ok true
  <-> exists (index : nat) (flux l r : Q),
        snap g line_wavelength = Ok index
        /\ Np.index spectra (Z.of_nat index) = Ok flux
        /\ cutoff <= - flux
        /\ Np.index spectra (Z.of_nat index - k) = Ok l /\ flux < l
        /\ Np.index spectra (Z.of_nat index + k) = Ok r /\ flux < r.
Proof.
  unfold line_test, below_both, bind. split.
  - destruct (snap g line_wavelength) as [index|]; [|discriminate].
    destruct (Np.index spectra (Z.of_nat index)) as [flux|] eqn:Ef;
      [|discriminate].
    destruct (Qle_bool cutoff (- flux)) eqn:Ec; [|discriminate].
    destruct (Np.index spectra (Z.of_nat index - k)) as [l|] eqn:Il;
      [|discriminate].
    destruct (Np.Qlt_bool flux l) eqn:El; [|discriminate].
    destruct (Np.index spectra (Z.of_nat index + k)) as [r|] eqn:Ir;
      [|discriminate].
    intros H. inversion H as [Er].
    exists index, flux, l, r.
    apply Qle_bool_iff in Ec. apply Qlt_bool_iff in El, Er.
    repeat split; assumption || reflexivity.
  - intros [index [flux [l [r [-> [-> [Hc [-> [Hl [-> Hr]]]]]]]]]].
    apply Qle_bool_iff in Hc. apply Qlt_bool_iff in Hl, Hr.
    now rewrite Hc, Hl, Hr.
Qed.

Lemma telluric_loop_keys (g : globals) (spectra lines : list Q)
    (acc td : list (Q * Q)) :
  telluric_loop g spectra lines acc = Ok td ->
  forall x, InA Qeq x (keys td)
    <-> InA Qeq x (keys acc)
        \/ exists lw, lw == x /\ In lw lines
             /\ line_test g spectra telluric_cutoff 1 lw = Ok true.
Proof.
  revert acc. induction lines as [|lw0 rest IH]; intros acc H x; simpl in H.
  - inversion H; subst. split; [tauto|]. intros [Hx|[lw [_ [[] _]]]]. exact Hx.
  - unfold bind in H.
    destruct (line_test g spectra telluric_cutoff 1 lw0) as [hit|] eqn:E;
      [|discriminate].
    rewrite (IH _ H x). destruct hit.
    + rewrite dict_set_keys. split.
      * intros [[Hx|Hx]|[lw [Hlw [Hin Ht]]]].
        -- right. exists lw0. simpl. split; [now symmetry|tauto].
        -- now left.
        -- right. exists lw. simpl. tauto.
      * intros [Hx|[lw [Hlw [[<-|Hin] Ht]]]].
        -- left. now right.
        -- left. left. now symmetry.
        -- right. exists lw. tauto.
    + split.
      * intros [Hx|[lw [Hlw [Hin Ht]]]]; [now left|].
        right. exists lw. simpl. tauto.
      * intros [Hx|[lw [Hlw [[<-|Hin] Ht]]]]; [now left|congruence|].
        right. exists lw. tauto.
Qed.

Lemma detect_parts (g : globals) (spectra wavelength : list Q)
    (spectral_lines : list (string * Q))
    (telluric_lines : list (string * list Q)) (threshold : Q)
    (detected : list (string * Q)) (td : list (Q * Q)) :
  detect g spectra wavelength spectral_lines telluric_lines threshold
  = Ok (detected, td) ->
  exists tl, dict_get "TL" telluric_lines = Ok tl
    /\ catalog_loop g spectra threshold spectral_lines [] = Ok detected
    /\ telluric_loop g spectra tl [] = Ok td.
Proof.
  unfold detect, bind.
  destruct (catalog_loop g spectra threshold spectral_lines []) as [d|]
    eqn:Ec; [|discriminate].
  destruct (dict_get "TL" telluric_lines) as [tl|]; [|discriminate].
  destruct (telluric_loop g spectra tl []) as [t|] eqn:Et; [|discriminate].
  intros H. inversion H; subst. exists tl.
  split; [reflexivity|]. split; [reflexivity|exact Et].
Qed.

End DetectorFacts.

(** Within the array, [a[i]] is the sample at position [i]. *)
Lemma index_in_range (a : list Q) (i : nat) :
  (i < length a)%nat ->
  Np.index a (Z.of_nat i) = Ok (nth i a 0).
Proof.
  intros H. unfold Np.index.
  destruct (Z.ltb_spec (Z.of_nat i) 0); [lia|].
  destruct (Z.leb_spec 0 (Z.of_nat i)); [|lia].
  destruct (Z.ltb_spec (Z.of_nat i) (Z.of_nat (length a))); [|lia].
  simpl. rewrite Nat2Z.id.
  destruct (nth_error a i) as [x|] eqn:E.
  - now rewrite (nth_error_nth _ _ _ E).
  - apply nth_error_None in E. lia.
Qed.

(** At least [k] samples away from both ends the test reads three
    samples of the array, raises nothing and answers by the rule. *)
Lemma line_test_interior (g : globals) (spectra : list Q) (cutoff : Q)
    (k index : nat) (line_wavelength : Q) :
  Detector.snap g line_wavelength = Ok index ->
  (k <= index)%nat -> (index + k < length spectra)%nat ->
  Detector.line_test g spectra cutoff (Z.of_nat k) line_wavelength
  = Ok (Qle_bool cutoff (- nth index spectra 0)
        && Np.Qlt_bool (nth index spectra 0) (nth (index - k) spectra 0)
        && Np.Qlt_bool (nth index spectra 0) (nth (index + k) spectra 0)).
Proof.
  intros Hs Hk Hn. unfold Detector.line_test, Detector.below_both.
  rewrite Hs. simpl.
  rewrite (index_in_range spectra index) by lia. simpl.
  replace (Z.of_nat index - Z.of_nat k)%Z with (Z.of_nat (index - k))
    by lia.
  replace (Z.of_nat index + Z.of_nat k)%Z with (Z.of_nat (index + k))
    by lia.
  rewrite (index_in_range spectra (index - k)) by lia.
  rewrite (index_in_range spectra (index + k)) by lia.
  destruct (Qle_bool cutoff (- nth index spectra 0)); simpl;
    [|reflexivity].
  destruct (Np.Qlt_bool (nth index spectra 0) (nth (index - k) spectra 0));
    reflexivity.
Qed.

(** C10, the code at failing inputs, on a window of 30 samples.  The
    telluric loop itself tests against 0.02 and never reads the
    threshold, but it runs after the catalog loop, and both loops index
    the array without a guard (the defect of C2).  With a catalog line
    and a telluric line at position 25, the threshold 1/2 lets the
    catalog loop read position 35 and raise [IndexError], so that no
    telluric line is recorded, while under the threshold 2 the catalog
    loop passes over its line and the telluric line at 25 is recorded:
    the threshold decides the telluric detections.  At position 0 there
    is no sample before; the loop reads position -1, which numpy counts
    from the end, so the last sample decides whether the telluric line at
    0 is recorded.  At position 29 there is no sample after, and the
    loop raises. *)
Theorem telluric_threshold_at_edges :
  Detector.detect session_a (dip 30 25) (grid 30)
    [("X", 25)] [("TL", [25])] (1 # 2)
  = Raise IndexError
  /\ Detector.detect session_a (dip 30 25) (grid 30)
       [("X", 25)] [("TL", [25])] 2
     = Ok ([], [(25, 25)])
  /\ Detector.detect session_a (dip 30 0) (grid 30)
       [] [("TL", [0])] (1 # 2)
     = Ok ([], [(0, 0)])
  /\ Detector.detect session_a
       (map (fun j => if Nat.eqb j 29 then - (2) else nth j (dip 30 0) 0)
            (seq 0 30))
       (grid 30) [] [("TL", [0])] (1 # 2)
     = Ok ([], [])
  /\ Detector.detect session_a (dip 30 29) (grid 30)
       [] [("TL", [29])] (1 # 2)
     = Raise IndexError.
Proof. repeat split; vm_compute; reflexivity. Qed.

(** The cutoff of the telluric loop is 0.02 whatever the threshold: a dip
    of depth 0.03 is recorded as telluric under a threshold of 2, and a
    dip of depth 0.01 is not under a threshold of 0. *)
Example telluric_cutoff_examples :
  Detector.detect session_a
    (map (fun x => x * (3 # 100)) (dip 30 15)) (grid 30)
    [("X", 15)] [("TL", [15])] 2
  = Ok ([], [(15, 15)])
  /\ Detector.detect session_a
       (map (fun x => x * (1 # 100)) (dip 30 15)) (grid 30)
       [("X", 15)] [("TL", [15])] 0
     = Ok ([("X", 15)], []).
Proof. split; vm_compute; reflexivity. Qed.

(** ** Continuum normalisation *)

Section ContinuumFacts.

Import Continuum.
Local Open Scope R_scope.

Lemma sum_sq_nonneg (v : list R) : 0 <= sum_sq v.
Proof.
  induction v as [|x v IH]; simpl; [lra|].
  pose proof (Rle_0_sqr x) as Hx. unfold Rsqr in Hx. lra.
Qed.

Lemma sum_sq_pos (v : list R) (d : R) :
  In d v -> d <> 0 -> 0 < sum_sq v.
Proof.
  induction v as [|x v IH]; simpl; [tauto|].
  intros [->|Hin] Hd.
  - pose proof (sum_sq_nonneg v). pose proof (Rsqr_pos_lt d Hd) as Hp.
    unfold Rsqr in Hp. lra.
  - pose proof (IH Hin Hd). pose proof (Rle_0_sqr x) as Hx.
    unfold Rsqr in Hx. lra.
Qed.

Lemma sum_sq_zero (v : list R) :
  sum_sq v <= 0 -> Forall (fun d => d = 0) v.
Proof.
  induction v as [|x v IH]; simpl; intros H; constructor.
  - pose proof (sum_sq_nonneg v). pose proof (Rle_0_sqr x) as Hx.
    unfold Rsqr in Hx. apply Rsqr_0_uniq. unfold Rsqr. lra.
  - apply IH. pose proof (Rle_0_sqr x) as Hx. unfold Rsqr in Hx.
    pose proof (sum_sq_nonneg v). lra.
Qed.

Lemma sum_sq_all_zero (v : list R) :
  Forall (fun d => d = 0) v -> sum_sq v = 0.
Proof.
  induction 1 as [|x v Hx Hv IH]; simpl; [reflexivity|]. subst. lra.
Qed.

Lemma sum_sq_scale (v : list R) (n : R) :
  n <> 0 -> sum_sq (map (fun d => d / n) v) = sum_sq v / (n * n).
Proof.
  intros Hn. induction v as [|x v IH]; simpl.
  - field. exact Hn.
  - rewrite IH. field. exact Hn.
Qed.

(** [intensity - g1_fit(wavelength)], cell by cell. *)
Lemma np_sub_fit (g : R -> R) (wavelength intensity : list R) :
  length wavelength = length intensity ->
  np_sub intensity (map g wavelength)
  = Ok (map (fun p => snd p - g (fst p)) (combine wavelength intensity)).
Proof.
  intros L. unfold np_sub. rewrite length_map, <- L, Nat.eqb_refl.
  f_equal. revert intensity L.
  induction wavelength as [|w ws IH]; intros [|y ys] L; simpl in *;
    try discriminate; [reflexivity|].
  f_equal. apply IH. congruence.
Qed.

Lemma FitContinuum_run (fitter : nat -> list R -> list R -> result (R -> R))
    (degree : nat) (wavelength intensity : list R) (g1_fit : R -> R) :
  fitter degree wavelength intensity = Ok g1_fit ->
  length wavelength = length intensity ->
  FitContinuum fitter degree wavelength intensity
  = Ok (map (fun d =>
               np_divide d
                 (norm (map (fun p => snd p - g1_fit (fst p))
                            (combine wavelength intensity))))
            (map (fun p => snd p - g1_fit (fst p))
                 (combine wavelength intensity))).
Proof.
  intros Hfit L. unfold FitContinuum. rewrite Hfit. simpl.
  now rewrite (np_sub_fit g1_fit wavelength intensity L).
Qed.

Lemma length_residual (g : R -> R) (wavelength intensity : list R) :
  length wavelength = length intensity ->
  length (map (fun p => snd p - g (fst p)) (combine wavelength intensity))
  = length intensity.
Proof. intros L. rewrite length_map, length_combine, L. apply Nat.min_id. Qed.

(** A residual that is zero everywhere has norm zero, and numpy turns
    each [0 / 0] into NaN without raising. *)
Lemma FitContinuum_zero_residual
    (fitter : nat -> list R -> list R -> result (R -> R))
    (degree : nat) (wavelength intensity : list R) (g1_fit : R -> R) :
  fitter degree wavelength intensity = Ok g1_fit ->
  length wavelength = length intensity ->
  Forall (fun d => d = 0)
    (map (fun p => snd p - g1_fit (fst p)) (combine wavelength intensity)) ->
  FitContinuum fitter degree wavelength intensity
  = Ok (repeat NaN (length intensity)).
Proof.
  intros Hfit L Hz.
  rewrite (FitContinuum_run fitter degree wavelength intensity g1_fit Hfit L).
  rewrite <- (length_residual g1_fit wavelength intensity L).
  f_equal. unfold norm. rewrite (sum_sq_all_zero _ Hz), sqrt_0.
  induction Hz as [|d v Hd Hv IH]; simpl; [reflexivity|].
  rewrite IH. f_equal. subst d. unfold np_divide.
  destruct (Req_EM_T 0 0) as [_|H]; [reflexivity|lra].
Qed.

Lemma divide_all (v : list R) (n : R) :
  n <> 0 ->
  map (fun d => np_divide d n) v = map Finite (map (fun d => d / n) v).
Proof.
  intros Hn. rewrite map_map. apply map_ext. intros d. unfold np_divide.
  destruct (Req_EM_T n 0); [contradiction|reflexivity].
Qed.

Lemma divide_zeros (v : list R) :
  Forall (fun d => d = 0) v ->
  map (fun d => np_divide d 0) v = repeat NaN (length v).
Proof.
  induction 1 as [|d v Hd Hv IH]; simpl; [reflexivity|].
  rewrite IH. f_equal. subst d. unfold np_divide.
  destruct (Req_EM_T 0 0) as [_|H]; [reflexivity|lra].
Qed.

Lemma nth_map_lt {A B : Type} (f : A -> B) (l : list A) (i : nat)
    (d : A) (d' : B) :
  (i < length l)%nat -> nth i (map f l) d' = f (nth i l d).
Proof.
  revert i. induction l as [|x l IH]; intros [|i] H; simpl in *;
    try lia; [reflexivity|]. apply IH. lia.
Qed.

Lemma residual_nth (g : R -> R) (wavelength intensity : list R) (i : nat) :
  length wavelength = length intensity ->
  (i < length intensity)%nat ->
  nth i (map (fun p => snd p - g (fst p)) (combine wavelength intensity)) 0
  = residual_at g wavelength intensity i.
Proof.
  unfold residual_at. revert intensity i.
  induction wavelength as [|w ws IH]; intros [|y ys] i L Hi; simpl in *;
    try discriminate; try lia.
  destruct i as [|i]; [reflexivity|]. apply IH; [congruence|lia].
Qed.

(** The array the code subtracts is the residual of the specification. *)
Lemma residual_indexed (g : R -> R) (wavelength intensity : list R) :
  length wavelength = length intensity ->
  map (fun p => snd p - g (fst p)) (combine wavelength intensity)
  = residual_over g wavelength intensity.
Proof.
  intros L. unfold residual_over.
  apply (nth_ext _ _ 0 0).
  - rewrite (length_residual g wavelength intensity L).
    now rewrite length_map, length_seq.
  - intros i Hi. rewrite (length_residual g wavelength intensity L) in Hi.
    rewrite (residual_nth g wavelength intensity i L Hi).
    rewrite (nth_map_lt _ _ i 0%nat) by (rewrite length_seq; exact Hi).
    rewrite seq_nth by exact Hi. reflexivity.
Qed.

Lemma sum_sq_sum_of_squares (v : list R) : sum_sq v = sum_of_squares v.
Proof.
  induction v as [|x v IH]; simpl; [reflexivity|].
  rewrite IH. reflexivity.
Qed.

Lemma norm_l2_norm (v : list R) : norm v = l2_norm v.
Proof. unfold norm, l2_norm. now rewrite sum_sq_sum_of_squares. Qed.

End ContinuumFacts.

Section ContinuumClaims.

Import Continuum.
Local Open Scope R_scope.

(** C6.  When the fitted residual is not zero at every sample,
    [FitContinuum] returns an array of numbers of the length of the
    window whose cell [i] is the residual [intensity - continuum] at
    sample [i] divided by the L2 norm of the residual over the whole
    window, one number for all cells.  The array returned has L2 norm 1.
    Residual and norm are those of the specification, [residual_at],
    [residual_over] and [l2_norm], not the code's. *)
Theorem FitContinuum_normalised
    (fitter : nat -> list R -> list R -> result (R -> R))
    (degree : nat) (wavelength intensity : list R) (g1_fit : R -> R) :
  fitter degree wavelength intensity = Ok g1_fit ->
  length wavelength = length intensity ->
  (exists i, (i < length intensity)%nat
             /\ residual_at g1_fit wavelength intensity i <> 0) ->
  exists spec_norm : list R,
    FitContinuum fitter degree wavelength intensity
    = Ok (map Finite spec_norm)
    /\ length spec_norm = length intensity
    /\ (forall i, (i < length intensity)%nat ->
          nth i spec_norm 0
          = residual_at g1_fit wavelength intensity i
            / l2_norm (residual_over g1_fit wavelength intensity))
    /\ 0 < l2_norm (residual_over g1_fit wavelength intensity)
    /\ l2_norm spec_norm = 1.
Proof.
  intros Hfit L [i0 [Hi0 Hd]].
  pose proof (FitContinuum_run fitter degree wavelength intensity g1_fit
                Hfit L) as Hrun.
  rewrite (residual_indexed g1_fit wavelength intensity L) in Hrun.
  set (residual := residual_over g1_fit wavelength intensity) in *.
  assert (Hlen : length residual = length intensity).
  { unfold residual, residual_over. now rewrite length_map, length_seq. }
  assert (Hnth : forall i, (i < length intensity)%nat ->
            nth i residual 0 = residual_at g1_fit wavelength intensity i).
  { intros i Hi. unfold residual.
    rewrite <- (residual_indexed g1_fit wavelength intensity L).
    now apply residual_nth. }
  assert (Hin : In (residual_at g1_fit wavelength intensity i0) residual).
  { rewrite <- (Hnth i0 Hi0). apply nth_In. now rewrite Hlen. }
  pose proof (sum_sq_pos residual _ Hin Hd) as Hpos.
  assert (Hn : 0 < norm residual) by (unfold norm; now apply sqrt_lt_R0).
  exists (map (fun d => d / norm residual) residual).
  split; [|split; [|split; [|split]]].
  - rewrite Hrun. f_equal. apply divide_all. lra.
  - now rewrite length_map.
  - intros i Hi. rewrite <- (norm_l2_norm residual), <- (Hnth i Hi).
    apply (nth_map_lt (fun d => d / norm residual)). now rewrite Hlen.
  - now rewrite <- (norm_l2_norm residual).
  - rewrite <- (norm_l2_norm (map _ residual)). unfold norm at 1.
    rewrite (sum_sq_scale residual (norm residual)) by lra.
    unfold norm. rewrite sqrt_sqrt by lra.
    replace (sum_sq residual / sum_sq residual) with 1 by (field; lra).
    apply sqrt_1.
Qed.

Lemma residual_3_4 :
  exists d,
    In d (map (fun p => snd p - (fun _ : R => 0) (fst p))
              (combine [1; 2] [3; 4]))
    /\ d <> 0.
Proof. exists (3 - 0). split; [simpl; auto|lra]. Qed.

(** The straight line [1/2 + x/2] is the least-squares line through the
    samples (0, 0), (1, 2), (2, 1): no line [a + b x] leaves a smaller
    sum of squared residuals. *)
Lemma line_through_three_samples (a b : R) :
  sum_of_squares (residual_over (fun x => 1 / 2 + x / 2) [0; 1; 2] [0; 2; 1])
  <= sum_of_squares (residual_over (fun x => a + b * x) [0; 1; 2] [0; 2; 1]).
Proof.
  unfold residual_over, residual_at. simpl. unfold Rsqr.
  pose proof (Rle_0_sqr (a + b - 1)) as H1.
  pose proof (Rle_0_sqr (b - 1 / 2)) as H2.
  unfold Rsqr in H1, H2. lra.
Qed.

Lemma residual_of_line :
  exists i, (i < length [0; 2; 1])%nat
            /\ residual_at (fun x => 1 / 2 + x / 2) [0; 1; 2] [0; 2; 1] i
               <> 0.
Proof. exists 1%nat. split; [simpl; lia|]. unfold residual_at. simpl. lra. Qed.

(** A window of three samples and its least-squares line. *)
Lemma FitContinuum_normalised_witness :
  exists spec_norm : list R,
    FitContinuum (fun _ _ _ => Ok (fun x => 1 / 2 + x / 2)) 1
      [0; 1; 2] [0; 2; 1]
    = Ok (map Finite spec_norm)
    /\ length spec_norm = length [0; 2; 1]
    /\ (forall i, (i < length [0; 2; 1])%nat ->
          nth i spec_norm 0
          = residual_at (fun x => 1 / 2 + x / 2) [0; 1; 2] [0; 2; 1] i
            / l2_norm (residual_over (fun x => 1 / 2 + x / 2)
                         [0; 1; 2] [0; 2; 1]))
    /\ 0 < l2_norm (residual_over (fun x => 1 / 2 + x / 2)
                      [0; 1; 2] [0; 2; 1])
    /\ l2_norm spec_norm = 1.
Proof.
  apply (FitContinuum_normalised
           (fun _ _ _ => Ok (fun x => 1 / 2 + x / 2)) 1
           [0; 1; 2] [0; 2; 1] (fun x => 1 / 2 + x / 2)).
  - reflexivity.
  - reflexivity.
  - exact residual_of_line.
Defined.

(** C4, as the code has it.  [FitContinuum] has no test of the window
    and no error of its own.  On a window of constant intensity, once the
    fitter has returned a continuum, it returns an array of the length of
    the window.  Every cell is a number as soon as the continuum differs
    from the constant at one sample, as the rounding of a fit makes it;
    every cell is NaN when the continuum meets the constant at every
    sample. *)
Theorem FitContinuum_constant_window
    (fitter : nat -> list R -> list R -> result (R -> R))
    (degree : nat) (wavelength intensity : list R) (g1_fit : R -> R)
    (c : R) :
  fitter degree wavelength intensity = Ok g1_fit ->
  length wavelength = length intensity ->
  Forall (fun y => y = c) intensity ->
  exists spec_norm : list npfloat,
    FitContinuum fitter degree wavelength intensity = Ok spec_norm
    /\ ~ is_error (FitContinuum fitter degree wavelength intensity)
    /\ length spec_norm = length intensity
    /\ ((exists i, (i < length intensity)%nat
                   /\ c - g1_fit (nth i wavelength 0) <> 0) ->
        exists xs : list R, spec_norm = map Finite xs)
    /\ ((forall i, (i < length intensity)%nat ->
                   c - g1_fit (nth i wavelength 0) = 0) ->
        spec_norm = repeat NaN (length intensity)).
Proof.
  intros Hfit L Hc.
  pose proof (FitContinuum_run fitter degree wavelength intensity g1_fit
                Hfit L) as Hrun.
  set (residual := map (fun p => snd p - g1_fit (fst p))
                       (combine wavelength intensity)) in *.
  assert (Hlen : length residual = length intensity)
    by (apply length_residual; exact L).
  assert (Hnth : forall i, (i < length intensity)%nat ->
            nth i residual 0 = c - g1_fit (nth i wavelength 0)).
  { intros i Hi. unfold residual.
    rewrite (residual_nth g1_fit wavelength intensity i L Hi).
    unfold residual_at. f_equal.
    rewrite Forall_forall in Hc. apply Hc. now apply nth_In. }
  exists (map (fun d => np_divide d (norm residual)) residual).
  split; [exact Hrun|]. split; [rewrite Hrun; simpl; tauto|].
  split; [now rewrite length_map|]. split.
  - intros [i [Hi Hd]].
    assert (Hin : In (nth i residual 0) residual)
      by (apply nth_In; now rewrite Hlen).
    rewrite <- (Hnth i Hi) in Hd.
    pose proof (sum_sq_pos residual _ Hin Hd) as Hpos.
    pose proof (sqrt_lt_R0 _ Hpos) as Hn. fold (norm residual) in Hn.
    eexists. apply divide_all. lra.
  - intros Hz.
    assert (Hall : Forall (fun d => d = 0) residual).
    { apply Forall_forall. intros d Hd.
      destruct (In_nth residual d 0 Hd) as [i [Hi <-]].
      rewrite Hlen in Hi. rewrite (Hnth i Hi). now apply Hz. }
    unfold norm. rewrite (sum_sq_all_zero _ Hall), sqrt_0.
    rewrite <- Hlen. now apply divide_zeros.
Qed.

Lemma constant_3_3 : Forall (fun y => y = 3) [3; 3].
Proof. repeat constructor. Qed.

(** The constant window [3, 3] under a continuum that misses the
    constant by a rounding error. *)
Lemma FitContinuum_constant_window_witness :
  exists spec_norm : list npfloat,
    FitContinuum (fun _ _ _ => Ok (fun _ => 3 - / 2 ^ 50)) 1 [1; 2] [3; 3]
    = Ok spec_norm
    /\ ~ is_error (FitContinuum (fun _ _ _ => Ok (fun _ => 3 - / 2 ^ 50)) 1
                     [1; 2] [3; 3])
    /\ length spec_norm = length [3; 3]
    /\ ((exists i, (i < length [3; 3])%nat
                   /\ 3 - (fun _ : R => 3 - / 2 ^ 50) (nth i [1; 2] 0) <> 0) ->
        exists xs : list R, spec_norm = map Finite xs)
    /\ ((forall i, (i < length [3; 3])%nat ->
                   3 - (fun _ : R => 3 - / 2 ^ 50) (nth i [1; 2] 0) = 0) ->
        spec_norm = repeat NaN (length [3; 3])).
Proof.
  apply (FitContinuum_constant_window
           (fun _ _ _ => Ok (fun _ => 3 - / 2 ^ 50)) 1
           [1; 2] [3; 3] (fun _ => 3 - / 2 ^ 50) 3).
  - reflexivity.
  - reflexivity.
  - exact constant_3_3.
Defined.

Lemma zero_residual_3_3 :
  Forall (fun d => d = 0)
    (map (fun p => snd p - (fun _ : R => 3) (fst p))
         (combine [1; 2] [3; 3])).
Proof. simpl. repeat constructor; lra. Qed.

(** C4 fails: the constant window [3, 3] never comes back as an error.
    Fitted exactly by the constant 3 it comes back as an array of two
    NaN; fitted with a rounding error, by the constant [3 - 2^-50], it
    comes back as two equal numbers [a] with [2 a^2 = 1]. *)
Lemma FitContinuum_constant_counterexample :
  FitContinuum (fun _ _ _ => Ok (fun _ => 3)) 1 [1; 2] [3; 3]
  = Ok [NaN; NaN]
  /\ ~ is_error (FitContinuum (fun _ _ _ => Ok (fun _ => 3)) 1
                   [1; 2] [3; 3])
  /\ (exists a : R,
        FitContinuum (fun _ _ _ => Ok (fun _ => 3 - / 2 ^ 50)) 1
          [1; 2] [3; 3]
        = Ok [Finite a; Finite a]
        /\ 0 < a /\ 2 * (a * a) = 1)
  /\ ~ is_error (FitContinuum (fun _ _ _ => Ok (fun _ => 3 - / 2 ^ 50)) 1
                   [1; 2] [3; 3]).
Proof.
  assert (H : FitContinuum (fun _ _ _ => Ok (fun _ => 3)) 1 [1; 2] [3; 3]
              = Ok [NaN; NaN]).
  { apply (FitContinuum_zero_residual (fun _ _ _ => Ok (fun _ => 3)) 1
             [1; 2] [3; 3] (fun _ => 3)).
    - reflexivity.
    - reflexivity.
    - exact zero_residual_3_3. }
  split; [exact H|]. split; [rewrite H; simpl; tauto|].
  pose proof (FitContinuum_run
                (fun _ _ _ => Ok (fun _ => 3 - / 2 ^ 50)) 1
                [1; 2] [3; 3] (fun _ => 3 - / 2 ^ 50)
                eq_refl eq_refl) as Hrun.
  cbn [combine map fst snd] in Hrun.
  set (d := 3 - (3 - / 2 ^ 50)) in *.
  assert (Hd : 0 < d).
  { unfold d. assert (0 < / 2 ^ 50) by (apply Rinv_0_lt_compat; lra). lra. }
  assert (Hs : sum_sq [d; d] = 2 * (d * d)) by (simpl; lra).
  assert (Hpos : 0 < sum_sq [d; d]) by (rewrite Hs; nra).
  pose proof (sqrt_lt_R0 _ Hpos) as Hn. fold (norm [d; d]) in Hn.
  assert (Hnn : norm [d; d] * norm [d; d] = 2 * (d * d)).
  { unfold norm. rewrite sqrt_sqrt by lra. exact Hs. }
  assert (Hcell : np_divide d (norm [d; d]) = Finite (d / norm [d; d])).
  { unfold np_divide.
    destruct (Req_EM_T (norm [d; d]) 0); [lra|reflexivity]. }
  rewrite Hcell in Hrun.
  split.
  - exists (d / norm [d; d]). split; [exact Hrun|]. split.
    + apply Rdiv_lt_0_compat; assumption.
    + replace (2 * (d / norm [d; d] * (d / norm [d; d])))
        with (2 * (d * d) / (norm [d; d] * norm [d; d])) by (field; lra).
      rewrite Hnn. field. nra.
  - rewrite Hrun. simpl. tauto.
Qed.

End ContinuumClaims.

(** * Further properties of the code *)

(** ** Aggregator *)

Section AggregatorMore.

Import Aggregator.

(** X1.  Whatever the input, the table [AverageSpectra] returns and the
    table [AddSpectra] returns have the same wavelength column, and it is
    strictly increasing: one row per distinct wavelength. *)
Theorem aggregate_one_row_per_wavelength (spectra : list SpectrumTable)
    (average_spectra summed_spectra : SpectrumTable) :
  AverageSpectra spectra = Ok average_spectra ->
  AddSpectra spectra = Ok summed_spectra ->
  wavelengths summed_spectra = wavelengths average_spectra
  /\ StronglySorted Qlt (wavelengths average_spectra).
Proof.
  unfold AverageSpectra, AddSpectra.
  destruct (concat spectra) as [rows|e]; simpl; [|discriminate].
  intros H1 H2. inversion H1; inversion H2; subst.
  rewrite !wavelengths_groupby. split; [reflexivity|].
  apply group_keys_sorted.
Qed.

Lemma aggregate_one_row_per_wavelength_witness :
  wavelengths [(400, 7 # 1); (500, 30 # 1); (600, 1 # 1)]
  = wavelengths [(400, 7 # 1); (500, 30 # 2); (600, 1 # 1)]
  /\ StronglySorted Qlt
       (wavelengths [(400, 7 # 1); (500, 30 # 2); (600, 1 # 1)]).
Proof.
  apply (aggregate_one_row_per_wavelength
           [[(500, 10); (400, 7)]; [(600, 1); (500, 20)]]).
  - reflexivity.
  - reflexivity.
Defined.

(** X2.  At every wavelength of the output the sum is the mean times the
    number of input rows recorded at that wavelength, and that number is
    at least one: no output row is made from nothing. *)
Theorem aggregate_sum_mean_count (spectra : list SpectrumTable)
    (average_spectra summed_spectra : SpectrumTable) (w m s : Q) :
  AverageSpectra spectra = Ok average_spectra ->
  AddSpectra spectra = Ok summed_spectra ->
  In (w, m) average_spectra ->
  In (w, s) summed_spectra ->
  (0 < length (flat_map (intensities_at w) spectra))%nat
  /\ s == m * inject_Z (Z.of_nat (length (flat_map (intensities_at w)
                                                    spectra))).
Proof.
  unfold AverageSpectra, AddSpectra.
  destruct (concat spectra) as [rows|e] eqn:Ec; simpl; [|discriminate].
  intros H1 H2 Hm Hs. inversion H1; inversion H2; subst.
  assert (Er : rows = List.concat spectra).
  { destruct spectra; simpl in Ec; [discriminate|]. now inversion Ec. }
  assert (El : flat_map (intensities_at w) spectra = group_values w rows).
  { subst rows. unfold intensities_at. clear.
    induction spectra as [|t ts IH]; simpl; [reflexivity|].
    now rewrite group_values_app, IH. }
  rewrite El.
  pose proof (group_values_present w rows (In_group_keys _ _ _ _ Hm)) as Hne.
  apply groupby_row in Hm, Hs. subst m s.
  assert (Hlen : (0 < length (group_values w rows))%nat).
  { destruct (group_values w rows); [congruence|simpl; lia]. }
  split; [exact Hlen|].
  unfold Qmean. field.
  intros H0. assert (Hz : Z.of_nat (length (group_values w rows)) = 0%Z).
  { unfold Qeq in H0. simpl in H0. lia. }
  lia.
Qed.

Lemma aggregate_sum_mean_count_witness :
  lt O (length (flat_map (intensities_at 500)
                  [[(500, 10); (400, 7)]; [(600, 1); (500, 20)]]))
  /\ 30 # 1
     == (30 # 2)
        * inject_Z (Z.of_nat
             (length (flat_map (intensities_at 500)
                        [[(500, 10); (400, 7)]; [(600, 1); (500, 20)]]))).
Proof.
  apply (aggregate_sum_mean_count
           [[(500, 10); (400, 7)]; [(600, 1); (500, 20)]]
           [(400, 7 # 1); (500, 30 # 2); (600, 1 # 1)]
           [(400, 7 # 1); (500, 30 # 1); (600, 1 # 1)]).
  - reflexivity.
  - reflexivity.
  - simpl. auto.
  - simpl. auto.
Defined.

Lemma concat_Permutation (l l' : list SpectrumTable) :
  Permutation l l' -> Permutation (List.concat l) (List.concat l').
Proof.
  induction 1 as [|t l l' H IH|a b l|l1 l2 l3 H1 IH1 H2 IH2]; simpl.
  - constructor.
  - now apply Permutation_app_head.
  - rewrite !app_assoc. apply Permutation_app_tail, Permutation_app_comm.
  - eapply Permutation_trans; eassumption.
Qed.

Lemma group_values_Permutation (k : Q) (rows rows' : SpectrumTable) :
  Permutation rows rows' ->
  Permutation (group_values k rows) (group_values k rows').
Proof.
  unfold group_values.
  induction 1 as [|r l l' H IH|a b l|l1 l2 l3 H1 IH1 H2 IH2]; simpl.
  - constructor.
  - destruct (Qeq_bool (fst r) k); simpl; [now constructor|exact IH].
  - destruct (Qeq_bool (fst a) k), (Qeq_bool (fst b) k); simpl;
      try apply Permutation_refl. apply perm_swap.
  - eapply Permutation_trans; eassumption.
Qed.

Lemma group_values_Qeq (k k' : Q) (rows : SpectrumTable) :
  k == k' -> group_values k rows = group_values k' rows.
Proof.
  intros Hk. unfold group_values. f_equal. apply filter_ext. intros r.
  destruct (Qeq_bool (fst r) k) eqn:E, (Qeq_bool (fst r) k') eqn:E';
    try reflexivity.
  - apply Qeq_bool_iff in E. rewrite Hk in E.
    apply Qeq_bool_iff in E. congruence.
  - apply Qeq_bool_iff in E'. rewrite <- Hk in E'.
    apply Qeq_bool_iff in E'. congruence.
Qed.

Lemma Qsum_Permutation (l l' : list Q) :
  Permutation l l' -> Qsum l == Qsum l'.
Proof.
  induction 1 as [|x l l' H IH|a b l|l1 l2 l3 H1 IH1 H2 IH2].
  - reflexivity.
  - now rewrite !Qsum_cons, IH.
  - rewrite !Qsum_cons. ring.
  - now rewrite IH1.
Qed.

Lemma Qmean_Permutation (l l' : list Q) :
  Permutation l l' -> Qmean l == Qmean l'.
Proof.
  intros H. unfold Qmean.
  now rewrite (Qsum_Permutation l l' H), (Permutation_length H).
Qed.

Lemma group_keys_Permutation (rows rows' : SpectrumTable) :
  Permutation rows rows' ->
  eqlistA Qeq (group_keys rows) (group_keys rows').
Proof.
  intros H.
  apply (SortA_equivlistA_eqlistA Q_Setoid QOrderedType.Q_as_OT.lt_strorder
           Qlt_compat).
  - apply StronglySorted_Sorted, group_keys_sorted.
  - apply StronglySorted_Sorted, group_keys_sorted.
  - intros x. rewrite !group_keys_InA. unfold wavelengths.
    rewrite !InA_alt. split; intros [y [Hy Hin]]; exists y;
      (split; [exact Hy|]).
    + eapply Permutation_in; [|exact Hin]. now apply Permutation_map.
    + eapply Permutation_in; [|exact Hin].
      apply Permutation_map. now apply Permutation_sym.
Qed.

Lemma groupby_Permutation (agg : list Q -> Q) (rows rows' : SpectrumTable) :
  (forall l l', Permutation l l' -> agg l == agg l') ->
  Permutation rows rows' ->
  same_table (groupby_agg agg rows) (groupby_agg agg rows').
Proof.
  intros Hagg H. unfold same_table, groupby_agg.
  pose proof (group_keys_Permutation rows rows' H) as Hk.
  induction Hk as [|k k' ks ks' Hkk Hks IH]; simpl; constructor.
  - simpl. split; [exact Hkk|].
    rewrite (group_values_Qeq k k' rows Hkk).
    apply Hagg. now apply group_values_Permutation.
  - exact IH.
Qed.

(** X3.  The order in which the exposures are listed does not matter:
    listing the same tables in another order gives, row by row, the same
    wavelengths and the same means and sums (as numbers). *)
Theorem aggregate_order_independent
    (spectra spectra' : list SpectrumTable) :
  Permutation spectra spectra' ->
  (forall a a', AverageSpectra spectra = Ok a ->
                AverageSpectra spectra' = Ok a' -> same_table a a')
  /\ (forall s s', AddSpectra spectra = Ok s ->
                   AddSpectra spectra' = Ok s' -> same_table s s').
Proof.
  intros H. pose proof (concat_Permutation _ _ H) as Hc.
  unfold AverageSpectra, AddSpectra.
  split; intros a a' Ha Ha';
    destruct spectra as [|t ts]; destruct spectra' as [|t' ts'];
    simpl in Ha, Ha'; try discriminate;
    inversion Ha; inversion Ha'; subst.
  - apply groupby_Permutation; [apply Qmean_Permutation|exact Hc].
  - apply groupby_Permutation; [apply Qsum_Permutation|exact Hc].
Qed.

Lemma aggregate_order_independent_witness :
  (forall a a',
      AverageSpectra [[(500, 10); (400, 7)]; [(600, 1); (500, 20)]] = Ok a ->
      AverageSpectra [[(600, 1); (500, 20)]; [(500, 10); (400, 7)]] = Ok a' ->
      same_table a a')
  /\ (forall s s',
        AddSpectra [[(500, 10); (400, 7)]; [(600, 1); (500, 20)]] = Ok s ->
        AddSpectra [[(600, 1); (500, 20)]; [(500, 10); (400, 7)]] = Ok s' ->
        same_table s s').
Proof.
  apply (aggregate_order_independent
           [[(500, 10); (400, 7)]; [(600, 1); (500, 20)]]
           [[(600, 1); (500, 20)]; [(500, 10); (400, 7)]]).
  apply perm_swap.
Defined.

End AggregatorMore.

(** ** Corrector *)

Section CorrectorMore.

Import Corrector.

Lemma series_sub_nth (a b : list Q) (i : nat) :
  (i < length a)%nat -> (i < length b)%nat ->
  nth i (Frame.series_sub a b) 0 = nth i a 0 - nth i b 0.
Proof.
  unfold Frame.series_sub. revert b i.
  induction a as [|x a IH]; intros [|y b] [|i] Ha Hb; simpl in *;
    try lia; [reflexivity|]. apply IH; lia.
Qed.

Lemma length_series_sub (a b : list Q) :
  length a = length b -> length (Frame.series_sub a b) = length a.
Proof.
  intros H. unfold Frame.series_sub.
  rewrite length_map, length_combine, H. apply Nat.min_id.
Qed.



Lemma isub_intensity_run (p b : ref) (s : state) (pf bf : DataFrame) :
  nth_error (objs s) p = Some pf ->
  nth_error (objs s) b = Some bf ->
  isub_intensity p b s
  = match Frame.getitem "intensity" pf with
    | Raise e => (s, Raise e)
    | Ok si =>
        match Frame.getitem "intensity" bf with
        | Raise e => (s, Raise e)
        | Ok v =>
            match Frame.series_isub si v with
            | Raise e => (s, Raise e)
            | Ok s' =>
                (mkState (update (objs s) p
                            (Frame.setitem "intensity" s' pf))
                         (stdout s), Ok tt)
            end
        end
    end.
Proof.
  intros Hp Hb. unfold isub_intensity, mbind, deref, lift, assign.
  rewrite Hp. destruct (Frame.getitem "intensity" pf); [|reflexivity].
  rewrite Hb. destruct (Frame.getitem "intensity" bf); [|reflexivity].
  destruct (Frame.series_isub a a0); [|reflexivity].
  now rewrite Hp.
Qed.

(** A frame without the column fails the lookup before the reference
    table is looked at. *)
Lemma isub_intensity_missing (p b : ref) (s : state) (pf : DataFrame) :
  nth_error (objs s) p = Some pf ->
  Frame.getitem "intensity" pf = Raise (KeyError "intensity") ->
  isub_intensity p b s = (s, Raise (KeyError "intensity")).
Proof.
  intros Hp Hg. unfold isub_intensity, mbind, deref, lift.
  now rewrite Hp, Hg.
Qed.

Lemma getitem_missing (name : string) (df : DataFrame) :
  ~ In name (Frame.columns df) ->
  Frame.getitem name df = Raise (KeyError name).
Proof.
  unfold Frame.columns. induction df as [|[n c] df IH]; simpl; intros H.
  - reflexivity.
  - destruct (String.eqb n name) eqn:E.
    + apply String.eqb_eq in E. tauto.
    + apply IH. tauto.
Qed.

Lemma nth_error_app_last {A : Type} (l : list A) (x : A) :
  nth_error (l ++ [x]) (length l) = Some x.
Proof. rewrite nth_error_app2 by lia. now rewrite Nat.sub_diag. Qed.

Lemma nth_error_app_old {A : Type} (l : list A) (x y : A) (i : nat) :
  nth_error l i = Some y -> nth_error (l ++ [x]) i = Some y.
Proof.
  intros H. rewrite nth_error_app1; [exact H|].
  apply nth_error_Some. congruence.
Qed.

(** X6.  A raw table that has no column labelled ['intensity'] makes
    [ProcessDataEach] raise [KeyError] as soon as one subtraction is
    switched on; by then the copy of that table has been made, and no
    list is returned. *)
Theorem ProcessDataEach_missing_column (data : ref) (rest : list ref)
    (background dark : ref) (sb sd : bool) (s : state) (df : DataFrame) :
  nth_error (objs s) data = Some df ->
  ~ In "intensity" (Frame.columns df) ->
  sb || sd = true ->
  ProcessDataEach (data :: rest) background dark sb sd s
  = (mkState (objs s ++ [df]) (stdout s), Raise (KeyError "intensity")).
Proof.
  intros Hd Hmiss Hon.
  pose proof (getitem_missing "intensity" df Hmiss) as Hg.
  unfold ProcessDataEach. simpl.
  unfold mbind at 1, process_one, mbind at 1, copy, mbind at 1, deref, alloc.
  rewrite Hd. simpl.
  set (s1 := mkState (objs s ++ [df]) (stdout s)).
  assert (Hp : nth_error (objs s1) (length (objs s)) = Some df)
    by apply nth_error_app_last.
  destruct sb; simpl.
  - unfold mbind at 1.
    now rewrite (isub_intensity_missing _ background s1 df Hp Hg).
  - simpl in Hon. subst sd. unfold mbind at 1 2. simpl.
    now rewrite (isub_intensity_missing _ dark s1 df Hp Hg).
Qed.

Lemma ProcessDataEach_missing_column_witness :
  ProcessDataEach [0%nat; 0%nat] 1%nat 2%nat false true
    (mkState [headerless raw5; background5; dark5] [])
  = (mkState (objs (mkState [headerless raw5; background5; dark5] [])
              ++ [headerless raw5])
       (stdout (mkState [headerless raw5; background5; dark5] [])),
     Raise (KeyError "intensity")).
Proof.
  apply (ProcessDataEach_missing_column 0%nat [0%nat] 1%nat 2%nat
           false true (mkState [headerless raw5; background5; dark5] [])
           (headerless raw5)).
  - reflexivity.
  - simpl. intros [H|[H|[]]]; discriminate.
  - reflexivity.
Defined.

(** X7.  With the background subtraction on, a background whose
    intensity column has neither the length of the raw one nor length one
    makes [ProcessDataEach] raise [ValueError]; the copy of the raw table
    stays as it was copied and no list is returned. *)
Theorem ProcessDataEach_length_mismatch (data : ref) (rest : list ref)
    (background dark : ref) (sd : bool) (s : state) (df bf : DataFrame)
    (si v : list Q) :
  nth_error (objs s) data = Some df ->
  nth_error (objs s) background = Some bf ->
  Frame.getitem "intensity" df = Ok si ->
  Frame.getitem "intensity" bf = Ok v ->
  length si <> length v ->
  length v <> 1%nat ->
  exists msg,
    ProcessDataEach (data :: rest) background dark true sd s
    = (mkState (objs s ++ [df]) (stdout s), Raise (ValueError msg)).
Proof.
  intros Hd Hb Hsi Hv Hlen H1.
  exists "operands could not be broadcast together".
  unfold ProcessDataEach. simpl.
  unfold mbind at 1, process_one, mbind at 1, copy, mbind at 1, deref, alloc.
  rewrite Hd. simpl.
  set (s1 := mkState (objs s ++ [df]) (stdout s)).
  assert (Hp : nth_error (objs s1) (length (objs s)) = Some df)
    by apply nth_error_app_last.
  assert (Hb1 : nth_error (objs s1) background = Some bf)
    by now apply nth_error_app_old.
  unfold mbind at 1.
  rewrite (isub_intensity_run _ _ s1 df bf Hp Hb1), Hsi, Hv.
  unfold Frame.series_isub.
  destruct (Nat.eqb_spec (length si) (length v)) as [E|_]; [contradiction|].
  destruct v as [|x [|y v]]; simpl in H1; try reflexivity. congruence.
Qed.

Lemma ProcessDataEach_length_mismatch_witness :
  exists msg,
    ProcessDataEach [0%nat; 0%nat] 1%nat 2%nat true true
      (mkState [raw5; background4; dark5] [])
    = (mkState (objs (mkState [raw5; background4; dark5] []) ++ [raw5])
         (stdout (mkState [raw5; background4; dark5] [])),
       Raise (ValueError msg)).
Proof.
  apply (ProcessDataEach_length_mismatch 0%nat [0%nat] 1%nat 2%nat true
           (mkState [raw5; background4; dark5] []) raw5 background4
           [10; 20; 30; 40; 50] [1; 1; 1; 1]).
  - reflexivity.
  - reflexivity.
  - reflexivity.
  - reflexivity.
  - simpl. lia.
  - simpl. lia.
Defined.

(** X8.  A background of a single row is not a mismatch: numpy
    broadcasts it, and [ProcessDataEach] subtracts that one value from
    every row of the raw table. *)
Theorem ProcessDataEach_broadcasts (data background dark : ref)
    (s : state) (df bf : DataFrame) (si : list Q) (x : Q) :
  nth_error (objs s) data = Some df ->
  nth_error (objs s) background = Some bf ->
  Frame.getitem "intensity" df = Ok si ->
  Frame.getitem "intensity" bf = Ok [x] ->
  ProcessDataEach [data] background dark true false s
  = (mkState (objs s
              ++ [Frame.setitem "intensity" (map (fun a => a - x) si) df])
       (stdout s),
     Ok [length (objs s)]).
Proof.
  intros Hd Hb Hsi Hv.
  unfold ProcessDataEach. simpl.
  unfold mbind at 1, process_one, mbind at 1, copy, mbind at 1, deref, alloc.
  rewrite Hd. simpl.
  set (s1 := mkState (objs s ++ [df]) (stdout s)).
  assert (Hp : nth_error (objs s1) (length (objs s)) = Some df)
    by apply nth_error_app_last.
  assert (Hb1 : nth_error (objs s1) background = Some bf)
    by now apply nth_error_app_old.
  unfold mbind at 1.
  rewrite (isub_intensity_run _ _ s1 df bf Hp Hb1), Hsi, Hv.
  assert (Hisub : Frame.series_isub si [x]
                  = Ok (map (fun a => a - x) si)).
  { unfold Frame.series_isub.
    destruct (Nat.eqb_spec (length si) (length [x])) as [E|_];
      [|reflexivity].
    destruct si as [|a [|a' si]]; simpl in E; try discriminate.
    reflexivity. }
  rewrite Hisub. subst s1. simpl. unfold mbind, ret. simpl.
  now rewrite update_app_last.
Qed.

Lemma ProcessDataEach_broadcasts_witness :
  ProcessDataEach [0%nat] 1%nat 2%nat true false
    (mkState [raw5; frame_of_table [(1, 3)]; dark5] [])
  = (mkState
       (objs (mkState [raw5; frame_of_table [(1, 3)]; dark5] [])
        ++ [Frame.setitem "intensity"
              (map (fun a => a - 3) [10; 20; 30; 40; 50]) raw5])
       (stdout (mkState [raw5; frame_of_table [(1, 3)]; dark5] [])),
     Ok [length (objs (mkState [raw5; frame_of_table [(1, 3)]; dark5] []))]).
Proof.
  apply (ProcessDataEach_broadcasts 0%nat 1%nat 2%nat
           (mkState [raw5; frame_of_table [(1, 3)]; dark5] [])
           raw5 (frame_of_table [(1, 3)]) [10; 20; 30; 40; 50] 3);
    reflexivity.
Defined.

Lemma series_isub_same_length (a b : list Q) :
  length a = length b ->
  Frame.series_isub a b = Ok (Frame.series_sub a b).
Proof. intros H. unfold Frame.series_isub. now rewrite H, Nat.eqb_refl. Qed.

(** X9.  On a raw, a background and a dark table labelled as [LoadData]
    labels them and of one row count, [ProcessDataEach] with both
    subtractions on leaves every table of the store as it was and adds
    one table: the wavelengths of the raw table and, cell by cell, its
    intensity less that of the background less that of the dark table.
    The subtractions take the [.values] of the reference columns, so the
    cells are paired by position. *)
Theorem ProcessDataEach_subtracts (r b d : ref) (s : state)
    (raw background dark : SpectrumTable) :
  nth_error (objs s) r = Some (frame_of_table raw) ->
  nth_error (objs s) b = Some (frame_of_table background) ->
  nth_error (objs s) d = Some (frame_of_table dark) ->
  length raw = length background ->
  length background = length dark ->
  exists intensity : list Q,
    ProcessDataEach [r] b d true true s
    = (mkState (objs s
                ++ [[("wavelength", wavelengths raw);
                     ("intensity", intensity)]])
               (stdout s),
       Ok [length (objs s)])
    /\ length intensity = length raw
    /\ forall i, (i < length raw)%nat ->
         nth i intensity 0
         = nth i (intensities raw) 0 - nth i (intensities background) 0
           - nth i (intensities dark) 0.
Proof.
  intros Hr Hb Hd L1 L2.
  assert (Lr : length (intensities raw) = length raw)
    by (unfold intensities; apply length_map).
  assert (Li : length (intensities raw) = length (intensities background)).
  { unfold intensities. now rewrite !length_map. }
  assert (Li' : length (intensities background) = length (intensities dark)).
  { unfold intensities. now rewrite !length_map. }
  exists (Frame.series_sub
            (Frame.series_sub (intensities raw) (intensities background))
            (intensities dark)).
  split; [|split].
  - destruct s as [h out]. simpl in *.
    unfold ProcessDataEach. simpl.
    unfold mbind at 1, process_one, mbind at 1, copy, mbind at 1, deref,
      alloc. simpl. rewrite Hr. simpl.
    unfold mbind at 1.
    rewrite (isub_intensity_run (length h) b
               (mkState (h ++ [frame_of_table raw]) out)
               (frame_of_table raw) (frame_of_table background)
               (nth_error_app_last h _)
               (nth_error_app_old h _ _ b Hb)).
    simpl. rewrite (series_isub_same_length _ _ Li). simpl.
    rewrite update_app_last.
    unfold mbind at 1. cbv beta.
    erewrite isub_intensity_run;
      [|apply nth_error_app_last|apply nth_error_app_old; exact Hd].
    simpl. rewrite series_isub_same_length
      by (rewrite length_series_sub by exact Li; congruence).
    simpl. rewrite update_app_last. reflexivity.
  - rewrite length_series_sub
      by (rewrite length_series_sub by exact Li; congruence).
    now rewrite length_series_sub by exact Li.
  - intros i Hi.
    rewrite series_sub_nth
      by (rewrite ?length_series_sub by exact Li; lia).
    rewrite series_sub_nth by lia. reflexivity.
Qed.

Lemma ProcessDataEach_subtracts_witness :
  exists intensity : list Q,
    ProcessDataEach [0%nat] 1%nat 2%nat true true
      (mkState [raw5; background5; dark5] [])
    = (mkState (objs (mkState [raw5; background5; dark5] [])
                ++ [[("wavelength",
                      wavelengths [(1, 10); (2, 20); (3, 30); (4, 40);
                                   (5, 50)]);
                     ("intensity", intensity)]])
               (stdout (mkState [raw5; background5; dark5] [])),
       Ok [length (objs (mkState [raw5; background5; dark5] []))])
    /\ length intensity
       = length [(1, 10); (2, 20); (3, 30); (4, 40); (5, 50)]
    /\ forall i,
         (i < length [(1, 10); (2, 20); (3, 30); (4, 40); (5, 50)])%nat ->
         nth i intensity 0
         = nth i (intensities [(1, 10); (2, 20); (3, 30); (4, 40); (5, 50)]) 0
           - nth i (intensities [(1, 1); (2, 1); (3, 1); (4, 1); (5, 1)]) 0
           - nth i (intensities [(1, 2); (2, 2); (3, 2); (4, 2); (5, 2)]) 0.
Proof.
  apply (ProcessDataEach_subtracts 0%nat 1%nat 2%nat
           (mkState [raw5; background5; dark5] [])
           [(1, 10); (2, 20); (3, 30); (4, 40); (5, 50)]
           [(1, 1); (2, 1); (3, 1); (4, 1); (5, 1)]
           [(1, 2); (2, 2); (3, 2); (4, 2); (5, 2)]);
    reflexivity.
Defined.

(** The table of that instance, cell by cell. *)
Example ProcessDataEach_subtracts_numbers :
  ProcessDataEach [0%nat] 1%nat 2%nat true true
    (mkState [raw5; background5; dark5] [])
  = (mkState [raw5; background5; dark5;
              [("wavelength", [1; 2; 3; 4; 5]);
               ("intensity", [10 - 1 - 2; 20 - 1 - 2; 30 - 1 - 2;
                              40 - 1 - 2; 50 - 1 - 2])]] [],
     Ok [3%nat]).
Proof. reflexivity. Qed.

End CorrectorMore.

(** ** Window selection *)

Section WindowMore.

Lemma select_mask (f : Q -> bool) (ws ys : list Q) :
  length ws = length ys ->
  Np.select ws (map f ws)
  = map fst (filter (fun p => f (fst p)) (combine ws ys))
  /\ Np.select ys (map f ws)
     = map snd (filter (fun p => f (fst p)) (combine ws ys)).
Proof.
  revert ys. induction ws as [|w ws IH]; intros [|y ys] L; simpl in *;
    try discriminate; [split; reflexivity|].
  destruct (IH ys) as [H1 H2]; [congruence|].
  destruct (f w); simpl; rewrite H1, H2; split; reflexivity.
Qed.

Lemma filter_none {A : Type} (f : A -> bool) (l : list A) :
  (forall x, f x = false) -> filter f l = [].
Proof.
  intros H. induction l as [|x l IH]; simpl; [reflexivity|].
  now rewrite H.
Qed.

(** X10.  When the module-level [sum_spectra] is a table with both
    columns, [DefSpectrumForLines] returns exactly its rows whose
    wavelength lies in [[minwavelength, maxwavelength]], bounds included,
    in their order, as a pair of arrays of equal length. *)
Theorem DefSpectrumForLines_window (g : globals) (spectr frame : DataFrame)
    (minwavelength maxwavelength : Q) (ws ys : list Q) :
  sum_spectra g = Some frame ->
  Frame.getitem "wavelength" frame = Ok ws ->
  Frame.getitem "intensity" frame = Ok ys ->
  length ws = length ys ->
  DefSpectrumForLines g spectr minwavelength maxwavelength
  = Ok (wavelengths (window minwavelength maxwavelength (combine ws ys)),
        intensities (window minwavelength maxwavelength (combine ws ys)))
  /\ forall p, In p (window minwavelength maxwavelength (combine ws ys))
       <-> In p (combine ws ys)
           /\ minwavelength <= fst p /\ fst p <= maxwavelength.
Proof.
  intros Hg Hw Hi L. split.
  - unfold DefSpectrumForLines. rewrite Hg. simpl. rewrite Hw, Hi. simpl.
    unfold Np.mask_index. rewrite !length_map, <- L, Nat.eqb_refl. simpl.
    destruct (select_mask
                (fun w => Qle_bool minwavelength w && Qle_bool w maxwavelength)
                ws ys L) as [-> ->].
    reflexivity.
  - intros p. unfold window. rewrite filter_In, andb_true_iff.
    now rewrite !Qle_bool_iff.
Qed.

Lemma DefSpectrumForLines_window_witness :
  DefSpectrumForLines session_b [] 420 600
  = Ok (wavelengths (window 420 600 (combine [400; 450; 600] [9; 8; 7])),
        intensities (window 420 600 (combine [400; 450; 600] [9; 8; 7])))
  /\ forall p, In p (window 420 600 (combine [400; 450; 600] [9; 8; 7]))
       <-> In p (combine [400; 450; 600] [9; 8; 7])
           /\ 420 <= fst p /\ fst p <= 600.
Proof.
  apply (DefSpectrumForLines_window session_b []
           (frame_of_table [(400, 9); (450, 8); (600, 7)])
           420 600 [400; 450; 600] [9; 8; 7]); reflexivity.
Defined.

(** X11.  Bounds the wrong way round are not an error: the window is
    empty. *)
Theorem DefSpectrumForLines_inverted (g : globals) (spectr frame : DataFrame)
    (minwavelength maxwavelength : Q) (ws ys : list Q) :
  sum_spectra g = Some frame ->
  Frame.getitem "wavelength" frame = Ok ws ->
  Frame.getitem "intensity" frame = Ok ys ->
  length ws = length ys ->
  maxwavelength < minwavelength ->
  DefSpectrumForLines g spectr minwavelength maxwavelength = Ok ([], []).
Proof.
  intros Hg Hw Hi L Hinv.
  unfold DefSpectrumForLines. rewrite Hg. simpl. rewrite Hw, Hi. simpl.
  unfold Np.mask_index. rewrite !length_map, <- L, Nat.eqb_refl. simpl.
  destruct (select_mask
              (fun w => Qle_bool minwavelength w && Qle_bool w maxwavelength)
              ws ys L) as [-> ->].
  assert (E : filter (fun p => Qle_bool minwavelength (fst p)
                              && Qle_bool (fst p) maxwavelength)
                     (combine ws ys) = []).
  { apply filter_none. intros p. apply andb_false_iff.
    destruct (Qle_bool minwavelength (fst p)) eqn:E1; [right|now left].
    destruct (Qle_bool (fst p) maxwavelength) eqn:E2; [|reflexivity].
    apply Qle_bool_iff in E1, E2. exfalso.
    apply (Qlt_not_le _ _ Hinv). eapply Qle_trans; eassumption. }
  now rewrite E.
Qed.

Lemma DefSpectrumForLines_inverted_witness :
  DefSpectrumForLines session_a [] 500 400 = Ok ([], []).
Proof.
  apply (DefSpectrumForLines_inverted session_a []
           (frame_of_table [(400, 1); (450, 2); (500, 3)])
           500 400 [400; 450; 500] [1; 2; 3]); reflexivity.
Defined.

(** X12.  [DefSpectrumForLines] raises exactly when the module-level
    [sum_spectra] is not a table with a wavelength and an intensity column
    of one length: never because of the bounds, and never because of the
    table it is passed. *)
Theorem DefSpectrumForLines_raises (g : globals) (spectr : DataFrame)
    (minwavelength maxwavelength : Q) :
  is_error (DefSpectrumForLines g spectr minwavelength maxwavelength)
  <-> ~ exists frame ws ys,
          sum_spectra g = Some frame
          /\ Frame.getitem "wavelength" frame = Ok ws
          /\ Frame.getitem "intensity" frame = Ok ys
          /\ length ws = length ys.
Proof.
  unfold DefSpectrumForLines.
  destruct (sum_spectra g) as [frame|] eqn:Hg; simpl.
  2: { split; [|tauto]. intros _ [f [ws [ys [H _]]]]. discriminate. }
  destruct (Frame.getitem "wavelength" frame) as [ws|e] eqn:Hw; simpl.
  2: { split; [|tauto]. intros _ [f [ws [ys [H [H' _]]]]].
       inversion H; subst. congruence. }
  destruct (Frame.getitem "intensity" frame) as [ys|e] eqn:Hi; simpl.
  2: { split; [|tauto]. intros _ [f [ws' [ys [H [_ [H' _]]]]]].
       inversion H; subst. congruence. }
  unfold Np.mask_index. rewrite !length_map, Nat.eqb_refl. simpl.
  destruct (Nat.eqb_spec (length ys) (length ws)) as [E|E]; simpl.
  - split; [tauto|]. intros H. apply H. exists frame, ws, ys. auto.
  - split; [|tauto]. intros _ [f [ws' [ys' [H [H1 [H2 H3]]]]]].
    inversion H; subst. congruence.
Qed.

End WindowMore.

(** ** Line detection *)

Section DetectorMore.

Import Detector.

Lemma argmin_from_spec (d : Q) (l pre : list Q) (best : Q) (best_i : nat) :
  (best_i < length pre)%nat ->
  nth best_i pre d = best ->
  (forall j, (j < length pre)%nat -> best <= nth j pre d) ->
  (forall j, (j < best_i)%nat -> best < nth j pre d) ->
  (Np.argmin_from best best_i (length pre) l < length (pre ++ l))%nat
  /\ (forall j, (j < length (pre ++ l))%nat ->
        nth (Np.argmin_from best best_i (length pre) l) (pre ++ l) d
        <= nth j (pre ++ l) d)
  /\ (forall j, (j < Np.argmin_from best best_i (length pre) l)%nat ->
        nth (Np.argmin_from best best_i (length pre) l) (pre ++ l) d
        < nth j (pre ++ l) d).
Proof.
  revert pre best best_i.
  induction l as [|x l IH]; intros pre best best_i Hi Hb Hall Hbefore.
  - simpl. rewrite app_nil_r, Hb. auto.
  - simpl.
    assert (Lp : length (pre ++ [x]) = S (length pre)).
    { rewrite length_app. simpl. lia. }
    replace (pre ++ x :: l)%list with ((pre ++ [x]) ++ l)%list
      by (rewrite <- app_assoc; reflexivity).
    rewrite <- Lp.
    destruct (Np.Qlt_bool x best) eqn:E.
    + apply Qlt_bool_iff in E.
      apply IH.
      * lia.
      * rewrite app_nth2 by lia. now rewrite Nat.sub_diag.
      * intros j Hj. destruct (Nat.eq_dec j (length pre)) as [->|Hne].
        -- rewrite app_nth2 by lia. rewrite Nat.sub_diag. apply Qle_refl.
        -- rewrite app_nth1 by lia. apply Qlt_le_weak.
           eapply Qlt_le_trans; [exact E|]. apply Hall. lia.
      * intros j Hj. rewrite app_nth1 by lia.
        eapply Qlt_le_trans; [exact E|]. apply Hall. lia.
    + assert (Hle : best <= x).
      { apply Qnot_lt_le. intros H. apply Qlt_bool_iff in H. congruence. }
      apply IH.
      * lia.
      * rewrite app_nth1 by lia. exact Hb.
      * intros j Hj. destruct (Nat.eq_dec j (length pre)) as [->|Hne].
        -- rewrite app_nth2 by lia. now rewrite Nat.sub_diag.
        -- rewrite app_nth1 by lia. apply Hall. lia.
      * intros j Hj. rewrite app_nth1 by lia. now apply Hbefore.
Qed.

(** [np.argmin] returns a position of the array, where the minimum
    stands for the first time. *)
Lemma argmin_spec (d : Q) (l : list Q) (i : nat) :
  Np.argmin l = Ok i ->
  (i < length l)%nat
  /\ (forall j, (j < length l)%nat -> nth i l d <= nth j l d)
  /\ (forall j, (j < i)%nat -> nth i l d < nth j l d).
Proof.
  destruct l as [|x l]; [discriminate|].
  unfold Np.argmin. intros H. injection H as <-.
  apply (argmin_from_spec d l [x] x 0%nat).
  - simpl. lia.
  - reflexivity.
  - intros [|j] Hj; simpl in *; [apply Qle_refl|lia].
  - intros j Hj. lia.
Qed.

(** X13.  Snapping is nearest-neighbour: the index found lies in the
    window, no sample of the window is nearer to the reference wavelength
    than the one at that index, and every sample before it is strictly
    farther (of several nearest samples the first is taken). *)
Theorem snap_nearest (g : globals) (wt : list Q) (line_wavelength : Q)
    (index : nat) :
  wavelength_truncated g = Some wt ->
  snap g line_wavelength = Ok index ->
  (index < length wt)%nat
  /\ (forall j, (j < length wt)%nat ->
        Qabs (nth index wt 0 - line_wavelength)
        <= Qabs (nth j wt 0 - line_wavelength))
  /\ (forall j, (j < index)%nat ->
        Qabs (nth index wt 0 - line_wavelength)
        < Qabs (nth j wt 0 - line_wavelength)).
Proof.
  intros Hg. unfold snap, global, bind. rewrite Hg.
  intros H.
  apply (argmin_spec (Qabs (0 - line_wavelength))) in H.
  rewrite length_map in H. destruct H as [H1 [H2 H3]].
  split; [exact H1|]. split.
  - intros j Hj. specialize (H2 j Hj).
    rewrite !(map_nth (fun w => Qabs (w - line_wavelength))) in H2.
    exact H2.
  - intros j Hj. specialize (H3 j Hj).
    rewrite !(map_nth (fun w => Qabs (w - line_wavelength))) in H3.
    exact H3.
Qed.

Lemma snap_nearest_witness :
  (12 < length (grid 30))%nat
  /\ (forall j, (j < length (grid 30))%nat ->
        Qabs (nth 12 (grid 30) 0 - (25 # 2))
        <= Qabs (nth j (grid 30) 0 - (25 # 2)))
  /\ (forall j, (j < 12)%nat ->
        Qabs (nth 12 (grid 30) 0 - (25 # 2))
        < Qabs (nth j (grid 30) 0 - (25 # 2))).
Proof.
  apply (snap_nearest session_a (grid 30) (25 # 2) 12%nat).
  - reflexivity.
  - vm_compute. reflexivity.
Defined.

Lemma catalog_loop_total (g : globals) (spectra : list Q) (threshold : Q)
    (items acc : list (string * Q)) :
  Forall (fun item => exists hit,
            line_test g spectra threshold 10 (snd item) = Ok hit) items ->
  exists d, catalog_loop g spectra threshold items acc = Ok d.
Proof.
  intros H. revert acc.
  induction H as [|[name lw] items [hit Hhit] _ IH]; intros acc; simpl.
  - eauto.
  - simpl in Hhit. rewrite Hhit. simpl. apply IH.
Qed.

Lemma telluric_loop_total (g : globals) (spectra lines : list Q)
    (acc : list (Q * Q)) :
  Forall (fun lw => exists hit,
            line_test g spectra telluric_cutoff 1 lw = Ok hit) lines ->
  exists td, telluric_loop g spectra lines acc = Ok td.
Proof.
  intros H. revert acc.
  induction H as [|lw lines [hit Hhit] _ IH]; intros acc; simpl.
  - eauto.
  - rewrite Hhit. simpl. apply IH.
Qed.

(** X14.  When every catalog line snaps at least 10 samples, and every
    telluric line at least one sample, away from both ends of the
    residual array, and the telluric list is there under ["TL"], the two
    loops raise nothing and return their two mappings. *)
Theorem detect_interior (g : globals) (spectra wavelength : list Q)
    (spectral_lines : list (string * Q))
    (telluric_lines : list (string * list Q)) (tl : list Q)
    (threshold : Q) :
  Forall (fun item => exists index,
            snap g (snd item) = Ok index
            /\ (10 <= index)%nat /\ (index + 10 < length spectra)%nat)
         spectral_lines ->
  dict_get "TL" telluric_lines = Ok tl ->
  Forall (fun lw => exists index,
            snap g lw = Ok index
            /\ (1 <= index)%nat /\ (index + 1 < length spectra)%nat)
         tl ->
  exists detected_lines telluric_lines_d,
    detect g spectra wavelength spectral_lines telluric_lines threshold
    = Ok (detected_lines, telluric_lines_d).
Proof.
  intros Hcat Htl Htel.
  destruct (catalog_loop_total g spectra threshold spectral_lines [])
    as [d Hd].
  { eapply Forall_impl; [|exact Hcat].
    intros item [index [Hs [H1 H2]]]. eexists.
    apply (line_test_interior g spectra threshold 10 index (snd item)
             Hs H1 H2). }
  destruct (telluric_loop_total g spectra tl []) as [td Htd].
  { eapply Forall_impl; [|exact Htel].
    intros lw [index [Hs [H1 H2]]]. eexists.
    apply (line_test_interior g spectra telluric_cutoff 1 index lw
             Hs H1 H2). }
  exists d, td. unfold detect. now rewrite Hd, Htl; simpl; rewrite Htd.
Qed.

Lemma interior_catalog :
  Forall (fun item : string * Q => exists index,
            snap session_a (snd item) = Ok index
            /\ (10 <= index)%nat
            /\ (index + 10 < length (dip 30 15))%nat)
         [("X", 15); ("Y", 12)].
Proof.
  constructor; [exists 15%nat|constructor; [exists 12%nat|constructor]];
    (split; [vm_compute; reflexivity|simpl; lia]).
Qed.

Lemma interior_telluric :
  Forall (fun lw : Q => exists index,
            snap session_a lw = Ok index
            /\ (1 <= index)%nat
            /\ (index + 1 < length (dip 30 15))%nat)
         [15; 28].
Proof.
  constructor; [exists 15%nat|constructor; [exists 28%nat|constructor]];
    (split; [vm_compute; reflexivity|simpl; lia]).
Qed.

Lemma detect_interior_witness :
  exists detected_lines telluric_lines_d,
    detect session_a (dip 30 15) (grid 30) [("X", 15); ("Y", 12)]
      [("TL", [15; 28])] (1 # 2)
    = Ok (detected_lines, telluric_lines_d).
Proof.
  apply (detect_interior session_a (dip 30 15) (grid 30)
           [("X", 15); ("Y", 12)] [("TL", [15; 28])] [15; 28] (1 # 2)).
  - exact interior_catalog.
  - reflexivity.
  - exact interior_telluric.
Defined.

(** X23.  The telluric rule away from the ends.  Let the catalog loop
    run to its end and let every telluric wavelength snap to an index
    with a sample on each side.  Then the two loops return; a telluric
    wavelength is recorded exactly when, at its snapped index, minus the
    flux is at least 0.02 and the flux is strictly below the flux of the
    sample before and of the sample after; and the telluric detections
    are the same under every other threshold under which the catalog
    loop runs to its end. *)
Theorem telluric_rule_interior (g : globals) (spectra wavelength : list Q)
    (spectral_lines : list (string * Q))
    (telluric_lines : list (string * list Q)) (tl : list Q)
    (threshold : Q) (detected : list (string * Q)) :
  catalog_loop g spectra threshold spectral_lines [] = Ok detected ->
  dict_get "TL" telluric_lines = Ok tl ->
  Forall (fun lw => exists index,
            snap g lw = Ok index
            /\ (1 <= index)%nat /\ (index + 1 < length spectra)%nat)
         tl ->
  exists td : list (Q * Q),
    detect g spectra wavelength spectral_lines telluric_lines threshold
    = Ok (detected, td)
    /\ (forall threshold' detected',
          catalog_loop g spectra threshold' spectral_lines [] = Ok detected' ->
          detect g spectra wavelength spectral_lines telluric_lines threshold'
          = Ok (detected', td))
    /\ forall x, InA Qeq x (keys td)
       <-> exists (lw : Q) (index : nat),
             lw == x /\ In lw tl
             /\ snap g lw = Ok index
             /\ 2 # 100 <= - nth index spectra 0
             /\ nth index spectra 0 < nth (index - 1) spectra 0
             /\ nth index spectra 0 < nth (index + 1) spectra 0.
Proof.
  intros Hcat Htl Htel.
  destruct (telluric_loop_total g spectra tl []) as [td Htd].
  { eapply Forall_impl; [|exact Htel].
    intros lw [index [Hs [H1 H2]]]. eexists.
    apply (line_test_interior g spectra telluric_cutoff 1 index lw
             Hs H1 H2). }
  exists td. split; [|split].
  - unfold detect. now rewrite Hcat, Htl; simpl; rewrite Htd.
  - intros threshold' detected' Hcat'.
    unfold detect. now rewrite Hcat', Htl; simpl; rewrite Htd.
  - intros x. rewrite (telluric_loop_keys g spectra tl [] td Htd x).
    unfold keys at 1. simpl. rewrite InA_nil.
    rewrite Forall_forall in Htel.
    assert (Hrule : forall lw index,
              In lw tl -> snap g lw = Ok index ->
              (line_test g spectra telluric_cutoff 1 lw = Ok true
               <-> 2 # 100 <= - nth index spectra 0
                   /\ nth index spectra 0 < nth (index - 1) spectra 0
                   /\ nth index spectra 0 < nth (index + 1) spectra 0)).
    { intros lw index Hin Hs.
      destruct (Htel lw Hin) as [index' [Hs' [H1 H2]]].
      assert (index' = index) by congruence. subst index'.
      pose proof (line_test_interior g spectra telluric_cutoff 1 index lw
                    Hs H1 H2) as Hl.
      change (Z.of_nat 1) with 1%Z in Hl. rewrite Hl.
      rewrite <- Qle_bool_iff, <- !Qlt_bool_iff. unfold telluric_cutoff.
      destruct (Qle_bool (2 # 100) (- nth index spectra 0));
        destruct (Np.Qlt_bool (nth index spectra 0)
                    (nth (index - 1) spectra 0));
        destruct (Np.Qlt_bool (nth index spectra 0)
                    (nth (index + 1) spectra 0));
        simpl; split; try tauto; try congruence;
        intros [? [? ?]]; discriminate. }
    split.
    + intros [[]|[lw [Hx [Hin Ht]]]].
      destruct (Htel lw Hin) as [index [Hs _]].
      exists lw, index. split; [exact Hx|]. split; [exact Hin|].
      split; [exact Hs|]. now apply (Hrule lw index Hin Hs).
    + intros [lw [index [Hx [Hin [Hs Hc]]]]].
      right. exists lw. split; [exact Hx|]. split; [exact Hin|].
      now apply (Hrule lw index Hin Hs).
Qed.

Lemma telluric_rule_interior_witness :
  exists td : list (Q * Q),
    detect session_a (dip 30 15) (grid 30) [("X", 15); ("Y", 12)]
      [("TL", [15; 28])] (1 # 2)
    = Ok ([("X", 15)], td)
    /\ (forall threshold' detected',
          catalog_loop session_a (dip 30 15) threshold'
            [("X", 15); ("Y", 12)] [] = Ok detected' ->
          detect session_a (dip 30 15) (grid 30) [("X", 15); ("Y", 12)]
            [("TL", [15; 28])] threshold'
          = Ok (detected', td))
    /\ forall x, InA Qeq x (keys td)
       <-> exists (lw : Q) (index : nat),
             lw == x /\ In lw [15; 28]
             /\ snap session_a lw = Ok index
             /\ 2 # 100 <= - nth index (dip 30 15) 0
             /\ nth index (dip 30 15) 0 < nth (index - 1) (dip 30 15) 0
             /\ nth index (dip 30 15) 0 < nth (index + 1) (dip 30 15) 0.
Proof.
  apply (telluric_rule_interior session_a (dip 30 15) (grid 30)
           [("X", 15); ("Y", 12)] [("TL", [15; 28])] [15; 28] (1 # 2)
           [("X", 15)]).
  - vm_compute. reflexivity.
  - reflexivity.
  - exact interior_telluric.
Defined.

Lemma dict_set_fresh (k : string) (v : Q) (d : list (string * Q)) :
  ~ In k (keys d) -> dict_set String.eqb k v d = (d ++ [(k, v)])%list.
Proof.
  unfold keys. induction d as [|[k' v'] d IH]; simpl; intros H.
  - reflexivity.
  - destruct (String.eqb k' k) eqn:E.
    + apply String.eqb_eq in E. tauto.
    + rewrite IH by tauto. reflexivity.
Qed.

Lemma catalog_loop_filter (g : globals) (spectra : list Q) (threshold : Q)
    (items acc d : list (string * Q)) :
  NoDup (keys acc ++ keys items) ->
  catalog_loop g spectra threshold items acc = Ok d ->
  d = (acc ++ filter (fun item => passes g spectra threshold 10 (snd item))
                     items)%list.
Proof.
  revert acc. induction items as [|[name lw] items IH]; intros acc Hnd H;
    simpl in H.
  - inversion H; subst. simpl. now rewrite app_nil_r.
  - unfold bind in H. simpl. unfold passes at 1.
    destruct (line_test g spectra threshold 10 lw) as [hit|e] eqn:E;
      [|discriminate].
    unfold keys in Hnd. simpl in Hnd. fold (keys acc) (keys items) in Hnd.
    pose proof (NoDup_remove_1 _ _ _ Hnd) as Hnd1.
    pose proof (NoDup_remove_2 _ _ _ Hnd) as Hfresh.
    destruct hit.
    + rewrite dict_set_fresh in H
        by (intros Hin; apply Hfresh, in_or_app; now left).
      apply IH in H.
      * rewrite H, <- app_assoc. reflexivity.
      * unfold keys. rewrite map_app. simpl. rewrite <- app_assoc. exact Hnd.
    + now apply IH in H.
Qed.

(** X15.  When the labels of the catalog are distinct, as the keys of a
    [dict] are, the catalog detections of a run that completes are
    exactly the catalog entries that pass the test, in catalog order; and
    an entry passes exactly when, at its snapped index, minus the flux is
    at least the threshold and the flux is strictly below the flux ten
    samples before and ten samples after, as numpy reads them. *)
Theorem catalog_detections (g : globals) (spectra wavelength : list Q)
    (spectral_lines : list (string * Q))
    (telluric_lines : list (string * list Q)) (threshold : Q)
    (detected : list (string * Q)) (td : list (Q * Q)) :
  NoDup (keys spectral_lines) ->
  detect g spectra wavelength spectral_lines telluric_lines threshold
  = Ok (detected, td) ->
  detected = filter (fun item => passes g spectra threshold 10 (snd item))
                    spectral_lines
  /\ forall lw, passes g spectra threshold 10 lw = true
       <-> exists (index : nat) (flux l r : Q),
             snap g lw = Ok index
             /\ Np.index spectra (Z.of_nat index) = Ok flux
             /\ threshold <= - flux
             /\ Np.index spectra (Z.of_nat index - 10) = Ok l /\ flux < l
             /\ Np.index spectra (Z.of_nat index + 10) = Ok r /\ flux < r.
Proof.
  intros Hnd H.
  destruct (detect_parts _ _ _ _ _ _ _ _ H) as [tl [_ [Hcat _]]].
  split.
  - apply (catalog_loop_filter g spectra threshold spectral_lines [] detected
             Hnd Hcat).
  - intros lw. rewrite <- line_test_true. unfold passes.
    destruct (line_test g spectra threshold 10 lw) as [[|]|e];
      split; congruence.
Qed.

Lemma catalog_detections_witness :
  [("X", 15)]
  = filter (fun item : string * Q =>
              passes session_a (dip 30 15) (1 # 2) 10 (snd item))
           [("X", 15); ("Y", 12)]
  /\ forall lw, passes session_a (dip 30 15) (1 # 2) 10 lw = true
       <-> exists (index : nat) (flux l r : Q),
             snap session_a lw = Ok index
             /\ Np.index (dip 30 15) (Z.of_nat index) = Ok flux
             /\ 1 # 2 <= - flux
             /\ Np.index (dip 30 15) (Z.of_nat index - 10) = Ok l
             /\ flux < l
             /\ Np.index (dip 30 15) (Z.of_nat index + 10) = Ok r
             /\ flux < r.
Proof.
  apply (catalog_detections session_a (dip 30 15) (grid 30)
           [("X", 15); ("Y", 12)] [("TL", [15; 20])] (1 # 2)
           [("X", 15)] [(15, 15)]).
  - repeat constructor; simpl; intuition discriminate.
  - vm_compute. reflexivity.
Defined.

(** X16.  Raising the threshold never adds a catalog detection: of two
    completed runs on the same data, every line detected under the higher
    threshold is detected under the lower one, and the telluric
    detections are the same. *)
Theorem threshold_monotone (g : globals) (spectra wavelength : list Q)
    (spectral_lines : list (string * Q))
    (telluric_lines : list (string * list Q)) (low high : Q)
    (detected_low detected_high : list (string * Q))
    (td_low td_high : list (Q * Q)) :
  NoDup (keys spectral_lines) ->
  low <= high ->
  detect g spectra wavelength spectral_lines telluric_lines low
  = Ok (detected_low, td_low) ->
  detect g spectra wavelength spectral_lines telluric_lines high
  = Ok (detected_high, td_high) ->
  incl detected_high detected_low /\ td_high = td_low.
Proof.
  intros Hnd Hle Hlow Hhigh.
  destruct (detect_parts _ _ _ _ _ _ _ _ Hlow) as [tl [Htl [Hc Ht]]].
  destruct (detect_parts _ _ _ _ _ _ _ _ Hhigh) as [tl' [Htl' [Hc' Ht']]].
  split; [|congruence].
  rewrite (catalog_loop_filter g spectra low spectral_lines [] _ Hnd Hc).
  rewrite (catalog_loop_filter g spectra high spectral_lines [] _ Hnd Hc').
  simpl. intros item Hin. apply filter_In in Hin as [Hin Hp].
  apply filter_In. split; [exact Hin|].
  unfold passes in *.
  destruct (line_test g spectra high 10 (snd item)) as [[|]|e] eqn:E;
    try discriminate.
  apply line_test_true in E.
  destruct E as [index [flux [l [r [H1 [H2 [H3 H4]]]]]]].
  assert (E' : line_test g spectra low 10 (snd item) = Ok true).
  { apply line_test_true. exists index, flux, l, r.
    split; [exact H1|]. split; [exact H2|]. split; [|exact H4].
    eapply Qle_trans; eassumption. }
  now rewrite E'.
Qed.

Lemma threshold_monotone_witness :
  incl [] [("X", 15)] /\ [(15, 15)] = [(15, 15)].
Proof.
  apply (threshold_monotone session_a (dip 30 15) (grid 30)
           [("X", 15); ("Y", 12)] [("TL", [15; 20])] (1 # 2) 2
           [("X", 15)] [] [(15, 15)] [(15, 15)]).
  - repeat constructor; simpl; intuition discriminate.
  - discriminate.
  - vm_compute. reflexivity.
  - vm_compute. reflexivity.
Defined.

Lemma dict_get_missing {V : Type} (k : string) (d : list (string * V)) :
  ~ In k (keys d) -> dict_get k d = Raise (KeyError k).
Proof.
  unfold keys. induction d as [|[k' v] d IH]; simpl; intros H.
  - reflexivity.
  - destruct (String.eqb k' k) eqn:E.
    + apply String.eqb_eq in E. tauto.
    + apply IH. tauto.
Qed.

(** X17.  The telluric mapping is read only after the catalog loop: when
    it has no key ["TL"] and the catalog loop runs to its end, the
    detection raises [KeyError] and the catalog detections already made
    are lost with it. *)
Theorem detect_missing_TL (g : globals) (spectra wavelength : list Q)
    (spectral_lines : list (string * Q))
    (telluric_lines : list (string * list Q)) (threshold : Q)
    (detected : list (string * Q)) :
  ~ In "TL" (keys telluric_lines) ->
  catalog_loop g spectra threshold spectral_lines [] = Ok detected ->
  detect g spectra wavelength spectral_lines telluric_lines threshold
  = Raise (KeyError "TL").
Proof.
  intros Hk Hc. unfold detect. rewrite Hc. simpl.
  now rewrite (dict_get_missing "TL" telluric_lines Hk).
Qed.

Lemma detect_missing_TL_witness :
  detect session_a (dip 30 15) (grid 30) [("X", 15)]
    [("telluric", [15])] (1 # 2)
  = Raise (KeyError "TL").
Proof.
  apply (detect_missing_TL session_a (dip 30 15) (grid 30) [("X", 15)]
           [("telluric", [15])] (1 # 2) [("X", 15)]).
  - simpl. intros [H|[]]. discriminate.
  - vm_compute. reflexivity.
Defined.

(** X18.  An empty window is fatal: with [wavelength_truncated] empty,
    the first line looked at, catalog or telluric, makes [np.argmin]
    raise [ValueError]. *)
Theorem detect_empty_window (g : globals) (spectra wavelength : list Q)
    (spectral_lines : list (string * Q))
    (telluric_lines : list (string * list Q)) (tl : list Q)
    (threshold : Q) :
  wavelength_truncated g = Some [] ->
  dict_get "TL" telluric_lines = Ok tl ->
  spectral_lines <> [] \/ tl <> [] ->
  detect g spectra wavelength spectral_lines telluric_lines threshold
  = Raise (ValueError "attempt to get argmin of an empty sequence").
Proof.
  intros Hg Htl Hne. unfold detect.
  destruct spectral_lines as [|[name lw] rest].
  - simpl. rewrite Htl. simpl.
    destruct tl as [|lw tl]; [destruct Hne; congruence|].
    simpl. unfold line_test, snap. now rewrite Hg.
  - simpl. unfold line_test, snap. now rewrite Hg.
Qed.

Lemma detect_empty_window_witness :
  detect (mkGlobals None (Some [])) (dip 30 15) (grid 30) []
    [("TL", [15])] (1 # 2)
  = Raise (ValueError "attempt to get argmin of an empty sequence").
Proof.
  apply (detect_empty_window (mkGlobals None (Some [])) (dip 30 15)
           (grid 30) [] [("TL", [15])] [15] (1 # 2)).
  - reflexivity.
  - reflexivity.
  - right. discriminate.
Defined.

Lemma dict_set_invariants (k : Q) (d : list (Q * Q)) :
  NoDupA Qeq (keys d) ->
  Forall (fun kv => snd kv == fst kv) d ->
  NoDupA Qeq (keys (dict_set Qeq_bool k k d))
  /\ Forall (fun kv => snd kv == fst kv) (dict_set Qeq_bool k k d).
Proof.
  unfold keys. induction d as [|[k' v'] d IH]; simpl; intros Hnd Hall.
  - split; repeat constructor; simpl; try apply Qeq_refl.
    intros H. inversion H.
  - inversion Hnd as [|? ? Hnotin Hnd']; subst.
    inversion Hall as [|? ? Hkv Hall']; subst.
    destruct (Qeq_bool k' k) eqn:E; simpl.
    + apply Qeq_bool_iff in E. split; [exact Hnd|].
      constructor; [simpl; now symmetry|exact Hall'].
    + destruct (IH Hnd' Hall') as [IH1 IH2].
      split; [|constructor; assumption].
      constructor; [|exact IH1].
      intros Hin. fold (keys (dict_set Qeq_bool k k d)) in Hin.
      apply dict_set_keys in Hin. destruct Hin as [Hin|Hin].
      * apply Qeq_bool_iff in Hin. congruence.
      * now apply Hnotin.
Qed.

Lemma telluric_loop_invariants (g : globals) (spectra lines : list Q)
    (acc td : list (Q * Q)) :
  NoDupA Qeq (keys acc) ->
  Forall (fun kv => snd kv == fst kv) acc ->
  telluric_loop g spectra lines acc = Ok td ->
  NoDupA Qeq (keys td) /\ Forall (fun kv => snd kv == fst kv) td.
Proof.
  revert acc. induction lines as [|lw rest IH]; intros acc Hnd Hall H;
    simpl in H.
  - inversion H; subst. auto.
  - unfold bind in H.
    destruct (line_test g spectra telluric_cutoff 1 lw) as [[|]|e];
      try discriminate.
    + destruct (dict_set_invariants lw acc Hnd Hall) as [H1 H2].
      exact (IH _ H1 H2 H).
    + exact (IH _ Hnd Hall H).
Qed.

(** X19.  The telluric detections are keyed by wavelength: in a run that
    completes, no wavelength is recorded twice, however often the list
    names it, and every entry maps a wavelength to itself. *)
Theorem telluric_detections_keyed (g : globals)
    (spectra wavelength : list Q) (spectral_lines : list (string * Q))
    (telluric_lines : list (string * list Q)) (threshold : Q)
    (detected : list (string * Q)) (td : list (Q * Q)) :
  detect g spectra wavelength spectral_lines telluric_lines threshold
  = Ok (detected, td) ->
  NoDupA Qeq (keys td) /\ Forall (fun kv => snd kv == fst kv) td.
Proof.
  intros H.
  destruct (detect_parts _ _ _ _ _ _ _ _ H) as [tl [_ [_ Ht]]].
  apply (telluric_loop_invariants g spectra tl [] td);
    [constructor|constructor|exact Ht].
Qed.

Lemma telluric_detections_keyed_witness :
  NoDupA Qeq (keys [(15, 30 # 2)])
  /\ Forall (fun kv : Q * Q => snd kv == fst kv) [(15, 30 # 2)].
Proof.
  apply (telluric_detections_keyed session_a (dip 30 15) (grid 30)
           [] [("TL", [15; 20; 30 # 2])] (1 # 2) [] [(15, 30 # 2)]).
  vm_compute. reflexivity.
Defined.

End DetectorMore.

(** ** Continuum normalisation *)

Section ContinuumMore.

Import Continuum.
Local Open Scope R_scope.

(** X20.  Whatever the fit, the array [FitContinuum] returns is of one
    kind: either every cell is a number, or every cell is NaN.  It never
    holds an infinity, and never mixes NaN with numbers. *)
Theorem FitContinuum_all_or_nothing
    (fitter : nat -> list R -> list R -> result (R -> R))
    (degree : nat) (wavelength intensity : list R)
    (spec_norm : list npfloat) :
  FitContinuum fitter degree wavelength intensity = Ok spec_norm ->
  (exists xs, spec_norm = map Finite xs)
  \/ spec_norm = repeat NaN (length spec_norm).
Proof.
  unfold FitContinuum, bind.
  destruct (fitter degree wavelength intensity) as [g|e]; [|discriminate].
  destruct (np_sub intensity (map g wavelength)) as [residual|e];
    [|discriminate].
  intros H. inversion H as [Hs]. clear H.
  destruct (Req_EM_T (norm residual) 0) as [E|E].
  - right. rewrite E, length_map.
    apply divide_zeros. apply sum_sq_zero.
    unfold norm in E. apply sqrt_eq_0 in E; [lra|apply sum_sq_nonneg].
  - left. eexists. now apply divide_all.
Qed.

Lemma FitContinuum_all_or_nothing_witness :
  (exists xs, [NaN; NaN] = map Finite xs)
  \/ [NaN; NaN] = repeat NaN (length [NaN; NaN]).
Proof.
  apply (FitContinuum_all_or_nothing (fun _ _ _ => Ok (fun _ => 3)) 1
           [1; 2] [3; 3] [NaN; NaN]).
  apply (FitContinuum_zero_residual (fun _ _ _ => Ok (fun _ => 3)) 1
           [1; 2] [3; 3] (fun _ => 3)).
  - reflexivity.
  - reflexivity.
  - exact zero_residual_3_3.
Defined.

Lemma abs_le_norm (v : list R) (d : R) :
  In d v -> Rabs d <= norm v.
Proof.
  intros Hin. unfold norm.
  rewrite <- (sqrt_Rsqr_abs d). apply sqrt_le_1.
  - apply Rle_0_sqr.
  - apply sum_sq_nonneg.
  - unfold Rsqr. induction v as [|x v IH]; simpl in *; [tauto|].
    destruct Hin as [->|Hin].
    + pose proof (sum_sq_nonneg v). lra.
    + specialize (IH Hin). pose proof (Rle_0_sqr x) as Hx.
      unfold Rsqr in Hx. lra.
Qed.

(** X21.  When the residual is not zero everywhere, every cell of the
    normalised residual lies between -1 and 1: no feature can be deeper
    than 1. *)
Theorem FitContinuum_bounded
    (fitter : nat -> list R -> list R -> result (R -> R))
    (degree : nat) (wavelength intensity : list R) (g1_fit : R -> R) :
  fitter degree wavelength intensity = Ok g1_fit ->
  length wavelength = length intensity ->
  (exists d,
      In d (map (fun p => snd p - g1_fit (fst p))
                (combine wavelength intensity))
      /\ d <> 0) ->
  exists spec_norm : list R,
    FitContinuum fitter degree wavelength intensity
    = Ok (map Finite spec_norm)
    /\ Forall (fun x => -1 <= x <= 1) spec_norm.
Proof.
  intros Hfit L [d [Hin Hd]].
  set (residual := map (fun p => snd p - g1_fit (fst p))
                       (combine wavelength intensity)) in *.
  pose proof (sum_sq_pos residual d Hin Hd) as Hpos.
  assert (Hn : 0 < norm residual) by (unfold norm; now apply sqrt_lt_R0).
  exists (map (fun d => d / norm residual) residual). split.
  - rewrite (FitContinuum_run fitter degree wavelength intensity g1_fit
               Hfit L).
    fold residual. f_equal. apply divide_all. lra.
  - apply Forall_forall. intros x Hx. apply in_map_iff in Hx.
    destruct Hx as [y [<- Hy]].
    pose proof (abs_le_norm residual y Hy) as Hab.
    pose proof (Rle_abs y) as Hhi. pose proof (Rle_abs (- y)) as Hlo.
    rewrite Rabs_Ropp in Hlo.
    split.
    + apply (Rmult_le_reg_r (norm residual)); [exact Hn|].
      unfold Rdiv. rewrite Rmult_assoc, Rinv_l by lra. lra.
    + apply (Rmult_le_reg_r (norm residual)); [exact Hn|].
      unfold Rdiv. rewrite Rmult_assoc, Rinv_l by lra. lra.
Qed.

Lemma FitContinuum_bounded_witness :
  exists spec_norm : list R,
    FitContinuum (fun _ _ _ => Ok (fun _ => 0)) 1 [1; 2] [3; 4]
    = Ok (map Finite spec_norm)
    /\ Forall (fun x => -1 <= x <= 1) spec_norm.
Proof.
  apply (FitContinuum_bounded (fun _ _ _ => Ok (fun _ => 0)) 1
           [1; 2] [3; 4] (fun _ => 0)).
  - reflexivity.
  - reflexivity.
  - exact residual_3_4.
Defined.

End ContinuumMore.
